(** * Image pipeline: metadata extraction, analysis client and orchestrator

    A shallow embedding of [src/services/imageService.ts],
    [src/services/geminiService.ts] and the two handlers of [src/App.tsx]
    ([handleImageSelect], [handlePrivacyClean]) together with the discard
    button, followed by the properties of the specification that concern
    them.

    Conventions.
    - A JavaScript value that came out of [JSON.parse] is a [json] tree;
      TypeScript's [as AIAnalysisResult] is erased at run time, so the
      analysis result is kept as the [json] value it is.
    - Numbers are exact rationals ([Q], kept reduced); rounding to binary64
      is not modelled.  A number of the metadata, which the parser computes
      by division, may also be NaN or infinite ([number]).
    - Strings are byte strings; a [\uXXXX] escape is stored as the UTF-8
      bytes of its code unit.
    - An [async] computation is a finite tree of effects.  [Await] marks a
      suspension point at which other handlers may run.
    - Everything the platform decides (clock, parser verdicts, reader and
      network outcomes) is handed to a handler in a [World] record. *)

From Stdlib Require Import List String Ascii Bool ZArith NArith QArith Lia.
From Stdlib Require Import DecimalString DecimalN.
Import ListNotations.
Local Open Scope string_scope.
Local Open Scope list_scope.

(* ================================================================== *)
(** * JavaScript values and JSON.parse *)
(* ================================================================== *)

Module JSON.

#[local] Set Warnings "-register-all".

Inductive json : Type :=
| JNull
| JBool (b : bool)
| JNum (q : Q)
| JStr (s : string)
| JArr (items : list json)
| JObj (props : list (string * json)).

(** Own-property lookup, [o[k]]; [None] stands for [undefined]. *)
Fixpoint get (k : string) (props : list (string * json)) : option json :=
  match props with
  | [] => None
  | (k', v) :: rest => if String.eqb k k' then Some v else get k rest
  end.

(** Property definition: a key that exists keeps its place and takes the
    new value, a new key goes last. *)
Fixpoint set (k : string) (v : json) (props : list (string * json))
  : list (string * json) :=
  match props with
  | [] => [(k, v)]
  | (k', v') :: rest =>
      if String.eqb k k' then (k', v) :: rest else (k', v') :: set k v rest
  end.

Inductive token : Type :=
| TLBrace | TRBrace | TLBrack | TRBrack | TColon | TComma
| TStr (s : string) | TNum (q : Q) | TTrue | TFalse | TNull.

(** ** Characters *)

Definition dquote : ascii := "034"%char.
Definition backslash : ascii := "092"%char.

Definition is_ws (c : ascii) : bool :=
  let n := N_of_ascii c in
  (n =? 32)%N || (n =? 9)%N || (n =? 10)%N || (n =? 13)%N.

Definition is_digit (c : ascii) : bool :=
  let n := N_of_ascii c in (48 <=? n)%N && (n <=? 57)%N.

Definition digit_val (c : ascii) : Z := Z.of_N (N_of_ascii c) - 48.

Definition is_lower (c : ascii) : bool :=
  let n := N_of_ascii c in (97 <=? n)%N && (n <=? 122)%N.

Definition is_numchar (c : ascii) : bool :=
  is_digit c || Ascii.eqb c "-" || Ascii.eqb c "+" || Ascii.eqb c "."
  || Ascii.eqb c "e" || Ascii.eqb c "E".

Definition hex_val (c : ascii) : option N :=
  let n := N_of_ascii c in
  if (48 <=? n)%N && (n <=? 57)%N then Some (n - 48)%N
  else if (65 <=? n)%N && (n <=? 70)%N then Some (n - 55)%N
  else if (97 <=? n)%N && (n <=? 102)%N then Some (n - 87)%N
  else None.

(** UTF-8 bytes of a 16-bit code unit. *)
Definition utf8 (n : N) : list ascii :=
  if (n <? 128)%N then [ascii_of_N n]
  else if (n <? 2048)%N then
    [ascii_of_N (192 + N.shiftr n 6); ascii_of_N (128 + N.land n 63)]
  else
    [ascii_of_N (224 + N.shiftr n 12);
     ascii_of_N (128 + N.land (N.shiftr n 6) 63);
     ascii_of_N (128 + N.land n 63)].

(** ** Numbers: [-? int frac? exp?] *)

Fixpoint take_digits (l : list ascii) : list ascii * list ascii :=
  match l with
  | c :: rest =>
      if is_digit c then
        let (ds, tl) := take_digits rest in (c :: ds, tl)
      else ([], l)
  | [] => ([], [])
  end.

Definition digits_val (ds : list ascii) : Z :=
  fold_left (fun acc c => 10 * acc + digit_val c)%Z ds 0%Z.

Definition int_ok (ds : list ascii) : bool :=
  match ds with
  | [] => false
  | [_] => true
  | c :: _ => negb (Ascii.eqb c "0")
  end.

Definition scale (m e : Z) : Q :=
  Qred (Qmult (inject_Z m) (Qpower (inject_Z 10) e)).

Definition read_exp (l : list ascii) : option Z :=
  match l with
  | [] => Some 0%Z
  | c :: rest =>
      if Ascii.eqb c "e" || Ascii.eqb c "E" then
        let (neg, rest') :=
          match rest with
          | s :: r =>
              if Ascii.eqb s "-" then (true, r)
              else if Ascii.eqb s "+" then (false, r)
              else (false, rest)
          | [] => (false, rest)
          end in
        match take_digits rest' with
        | ([], _) => None
        | (ds, []) => Some (if neg then - digits_val ds else digits_val ds)%Z
        | (_, _ :: _) => None
        end
      else None
  end.

Definition read_number (l : list ascii) : option Q :=
  let (neg, l1) :=
    match l with
    | c :: r => if Ascii.eqb c "-" then (true, r) else (false, l)
    | [] => (false, l)
    end in
  let (ip, l2) := take_digits l1 in
  if negb (int_ok ip) then None
  else
    let frac :=
      match l2 with
      | c :: r =>
          if Ascii.eqb c "." then
            match take_digits r with
            | ([], _) => None
            | (fs, l3) => Some (fs, l3)
            end
          else Some ([], l2)
      | [] => Some ([], l2)
      end in
    match frac with
    | None => None
    | Some (fs, l3) =>
        match read_exp l3 with
        | None => None
        | Some e =>
            let m := digits_val (ip ++ fs) in
            Some (scale (if neg then - m else m)
                        (e - Z.of_nat (List.length fs)))
        end
    end.

(** ** Lexer: one character at a time *)

Inductive lexmode : Type :=
| LDefault
| LString (acc : list ascii)
| LEscape (acc : list ascii)
| LUnicode (acc : list ascii) (hex : list N)
| LNumber (acc : list ascii)
| LWord (acc : list ascii).

Definition string_of_rev (acc : list ascii) : string :=
  string_of_list_ascii (rev acc).

Definition word_token (acc : list ascii) : option token :=
  let w := string_of_rev acc in
  if String.eqb w "true" then Some TTrue
  else if String.eqb w "false" then Some TFalse
  else if String.eqb w "null" then Some TNull
  else None.

Definition lex_default (c : ascii) (toks : list token)
  : option (lexmode * list token) :=
  if is_ws c then Some (LDefault, toks)
  else if Ascii.eqb c "{" then Some (LDefault, TLBrace :: toks)
  else if Ascii.eqb c "}" then Some (LDefault, TRBrace :: toks)
  else if Ascii.eqb c "[" then Some (LDefault, TLBrack :: toks)
  else if Ascii.eqb c "]" then Some (LDefault, TRBrack :: toks)
  else if Ascii.eqb c ":" then Some (LDefault, TColon :: toks)
  else if Ascii.eqb c "," then Some (LDefault, TComma :: toks)
  else if Ascii.eqb c dquote then Some (LString [], toks)
  else if is_digit c || Ascii.eqb c "-" then Some (LNumber [c], toks)
  else if is_lower c then Some (LWord [c], toks)
  else None.

Definition unescape (c : ascii) : option ascii :=
  if Ascii.eqb c dquote then Some dquote
  else if Ascii.eqb c backslash then Some backslash
  else if Ascii.eqb c "/" then Some "/"%char
  else if Ascii.eqb c "b" then Some "008"%char
  else if Ascii.eqb c "f" then Some "012"%char
  else if Ascii.eqb c "n" then Some "010"%char
  else if Ascii.eqb c "r" then Some "013"%char
  else if Ascii.eqb c "t" then Some "009"%char
  else None.

Definition lex_step (st : lexmode * list token) (c : ascii)
  : option (lexmode * list token) :=
  let (mode, toks) := st in
  match mode with
  | LDefault => lex_default c toks
  | LString acc =>
      if Ascii.eqb c dquote then
        Some (LDefault, TStr (string_of_rev acc) :: toks)
      else if Ascii.eqb c backslash then Some (LEscape acc, toks)
      else if (N_of_ascii c <? 32)%N then None
      else Some (LString (c :: acc), toks)
  | LEscape acc =>
      if Ascii.eqb c "u" then Some (LUnicode acc [], toks)
      else match unescape c with
           | Some c' => Some (LString (c' :: acc), toks)
           | None => None
           end
  | LUnicode acc hex =>
      match hex_val c with
      | None => None
      | Some h =>
          match hex with
          | [h2; h1; h0] =>
              let n := (((h0 * 16 + h1) * 16 + h2) * 16 + h)%N in
              Some (LString (rev (utf8 n) ++ acc), toks)
          | _ => Some (LUnicode acc (h :: hex), toks)
          end
      end
  | LNumber acc =>
      if is_numchar c then Some (LNumber (c :: acc), toks)
      else match read_number (rev acc) with
           | Some q => lex_default c (TNum q :: toks)
           | None => None
           end
  | LWord acc =>
      if is_lower c then Some (LWord (c :: acc), toks)
      else match word_token acc with
           | Some t => lex_default c (t :: toks)
           | None => None
           end
  end.

Fixpoint lex_loop (st : lexmode * list token) (l : list ascii)
  : option (lexmode * list token) :=
  match l with
  | [] => Some st
  | c :: rest =>
      match lex_step st c with
      | Some st' => lex_loop st' rest
      | None => None
      end
  end.

Definition lex_finish (st : lexmode * list token) : option (list token) :=
  let (mode, toks) := st in
  match mode with
  | LDefault => Some (rev toks)
  | LNumber acc =>
      match read_number (rev acc) with
      | Some q => Some (rev (TNum q :: toks))
      | None => None
      end
  | LWord acc =>
      match word_token acc with
      | Some t => Some (rev (t :: toks))
      | None => None
      end
  | _ => None
  end.

Definition lex (text : string) : option (list token) :=
  match lex_loop (LDefault, []) (list_ascii_of_string text) with
  | Some st => lex_finish st
  | None => None
  end.

(** ** Grammar: a stack of the containers that are still open *)

Inductive frame : Type :=
| FArr (done : list json)
| FObj (done : list (string * json)) (key : option string).

Inductive expect : Type :=
| EValue      (* a value must come *)
| EFirst      (* just after an opening bracket or brace *)
| EKey        (* after a comma inside an object *)
| EColon      (* after a key *)
| EAfter      (* after a value inside a container *)
| EDone (v : json).

Definition pstate : Type := (expect * list frame)%type.

Definition push_value (v : json) (stack : list frame) : option pstate :=
  match stack with
  | [] => Some (EDone v, [])
  | FArr done :: rest => Some (EAfter, FArr (v :: done) :: rest)
  | FObj done (Some k) :: rest => Some (EAfter, FObj (set k v done) None :: rest)
  | FObj _ None :: _ => None
  end.

Definition value_allowed (st : pstate) : bool :=
  match st with
  | (EValue, _) => true
  | (EFirst, FArr _ :: _) => true
  | _ => false
  end.

Definition key_allowed (st : pstate) : bool :=
  match st with
  | (EFirst, FObj _ None :: _) => true
  | (EKey, FObj _ None :: _) => true
  | _ => false
  end.

Definition close_allowed (st : pstate) : bool :=
  match st with
  | (EFirst, _) => true
  | (EAfter, _) => true
  | _ => false
  end.

Definition scalar (v : json) (st : pstate) : option pstate :=
  if value_allowed st then push_value v (snd st) else None.

Definition parse_step (st : pstate) (t : token) : option pstate :=
  match t with
  | TNull => scalar JNull st
  | TTrue => scalar (JBool true) st
  | TFalse => scalar (JBool false) st
  | TNum q => scalar (JNum q) st
  | TStr s =>
      if key_allowed st then
        match snd st with
        | FObj done _ :: rest => Some (EColon, FObj done (Some s) :: rest)
        | _ => None
        end
      else scalar (JStr s) st
  | TLBrack => if value_allowed st then Some (EFirst, FArr [] :: snd st) else None
  | TLBrace =>
      if value_allowed st then Some (EFirst, FObj [] None :: snd st) else None
  | TRBrack =>
      if close_allowed st then
        match snd st with
        | FArr done :: rest => push_value (JArr (rev done)) rest
        | _ => None
        end
      else None
  | TRBrace =>
      if close_allowed st then
        match snd st with
        | FObj done None :: rest => push_value (JObj done) rest
        | _ => None
        end
      else None
  | TColon =>
      match st with
      | (EColon, stack) => Some (EValue, stack)
      | _ => None
      end
  | TComma =>
      match st with
      | (EAfter, FArr done :: rest) => Some (EValue, FArr done :: rest)
      | (EAfter, FObj done None :: rest) => Some (EKey, FObj done None :: rest)
      | _ => None
      end
  end.

Fixpoint parse_loop (st : pstate) (ts : list token) : option pstate :=
  match ts with
  | [] => Some st
  | t :: rest =>
      match parse_step st t with
      | Some st' => parse_loop st' rest
      | None => None
      end
  end.

(** [JSON.parse(text)]: [None] stands for the [SyntaxError] it throws. *)
Definition parse (text : string) : option json :=
  match lex text with
  | None => None
  | Some ts =>
      match parse_loop (EValue, []) ts with
      | Some (EDone v, []) => Some v
      | _ => None
      end
  end.

End JSON.
Import JSON.

(** A string literal of JSON text: the characters of [s] between two
    double quotes. *)
Definition quoted (s : string) : string :=
  String dquote (s ++ String dquote EmptyString).

(* ================================================================== *)
(** * Data model ([types.ts]) *)
(* ================================================================== *)

(** An object URL is modelled by its serial number; as a string it is never
    empty, so it is always truthy. *)
Definition url : Type := N.

Record File : Type := { name : string; lastModified : N }.

Record Blob : Type := { blob_type : string; blob_size : N }.

(** A number of the metadata ([number] in [types.ts]).  The parser computes
    it by dividing the rationals of a tag, so besides the finite values it
    may be NaN (0/0) or infinite (n/0). *)
Inductive number : Type :=
| Finite (q : Q)
| Infinity (negative : bool)
| NaN.

(** JavaScript's truthiness of a number: zero and NaN are falsy. *)
Definition truthy_number (n : number) : bool :=
  match n with
  | Finite q => negb (Qnum q =? 0)%Z
  | Infinity _ => true
  | NaN => false
  end.

Record ExifData : Type := {
  make : option string;
  model : option string;
  dateTimeOriginal : option string;
  exposureTime : option number;
  fNumber : option number;
  iso : option number;
  focalLength : option number;
  latitude : option number;
  longitude : option number;
  software : option string;
  width : option number;
  height : option number
}.

(** [AIAnalysisResult] is a compile-time view of a parsed value. *)
Definition AIAnalysisResult : Type := json.

Record ProcessedImage : Type := {
  id : string;
  file : File;
  previewUrl : url;
  exif : option ExifData;
  aiAnalysis : option AIAnalysisResult;
  isProcessing : bool;
  error : option string
}.

(* ================================================================== *)
(** * Exceptions, effects and asynchronous computations *)
(* ================================================================== *)

(** [Error msg] is [new Error(msg)], [SyntaxError] is what [JSON.parse]
    throws, [Failure] is any rejection value built by the platform (a reader
    error event, a network error, a parser error). *)
Inductive exn : Type :=
| Error (message : string)
| SyntaxError
| Failure (reason : string).

Inductive outcome (A : Type) : Type :=
| Resolved (a : A)
| Rejected (e : exn).
Arguments Resolved {A} a.
Arguments Rejected {A} e.

Inductive source : Type :=
| OfFile (f : File)
| OfBlob (b : Blob).

Inductive effect : Type :=
| ConsoleError (label : option string) (e : exn)
| Request (apiKey : string) (data : option string)
| ObjectURLCreated (u : url) (src : source)
| RevokeObjectURL (u : url)
| ClickDownload (download : string) (href : url)
| Alert (msg : string)
| SetShowCamera (b : bool).

Inductive async (A : Type) : Type :=
| Ret (a : A)
| Throw (e : exn)
| Await (k : async A)
| Do (e : effect) (k : async A)
| SetData (u : option ProcessedImage -> option ProcessedImage) (k : async A)
| CreateObjectURL (src : source) (k : url -> async A).
Arguments Ret {A} a.
Arguments Throw {A} e.
Arguments Await {A} k.
Arguments Do {A} e k.
Arguments SetData {A} u k.
Arguments CreateObjectURL {A} src k.

Fixpoint bind {A B : Type} (m : async A) (f : A -> async B) : async B :=
  match m with
  | Ret a => f a
  | Throw e => Throw e
  | Await k => Await (bind k f)
  | Do e k => Do e (bind k f)
  | SetData u k => SetData u (bind k f)
  | CreateObjectURL src k => CreateObjectURL src (fun u => bind (k u) f)
  end.

(** [try { m } catch (e) { h e }] *)
Fixpoint try_catch {A : Type} (m : async A) (h : exn -> async A) : async A :=
  match m with
  | Ret a => Ret a
  | Throw e => h e
  | Await k => Await (try_catch k h)
  | Do e k => Do e (try_catch k h)
  | SetData u k => SetData u (try_catch k h)
  | CreateObjectURL src k => CreateObjectURL src (fun u => try_catch (k u) h)
  end.

Declare Scope async_scope.
Delimit Scope async_scope with async.
Notation "x <- m ;; k" := (bind m (fun x => k))
  (at level 61, m at next level, right associativity) : async_scope.
Notation "m ;; k" := (bind m (fun _ => k))
  (at level 61, right associativity) : async_scope.
Local Open Scope async_scope.

Definition perform (e : effect) : async unit := Do e (Ret tt).
Definition setData (u : option ProcessedImage -> option ProcessedImage)
  : async unit := SetData u (Ret tt).

(** Settling of a promise the platform owns: the caller is suspended until
    the verdict is in. *)
Definition settle {A : Type} (o : outcome A) : async A :=
  Await (match o with
         | Resolved a => Ret a
         | Rejected e => Throw e
         end).

(* ================================================================== *)
(** * The platform *)
(* ================================================================== *)

Module Exifr.
(** What [exifr.parse] hands back, restricted to the properties the
    extractor reads.  [None] is [undefined]. *)
Inductive DateTag : Type :=
| DateObject (ms : Z)
| DateText (s : string).

Record Output : Type := {
  Make : option string;
  Model : option string;
  DateTimeOriginal : option DateTag;
  ExposureTime : option number;
  FNumber : option number;
  ISO : option number;
  FocalLength : option number;
  latitude : option number;
  longitude : option number;
  Software : option string;
  ExifImageWidth : option number;
  ExifImageHeight : option number
}.
End Exifr.

Inductive ReaderResult : Type :=
| ResultString (s : string)
| ResultOther.

Inductive ReaderOutcome : Type :=
| OnLoad (result : ReaderResult)
| OnError (e : exn).

Inductive ImageOutcome : Type :=
| ImageLoaded (w h : N)
| ImageError (e : exn).

Record GoogleGenAI : Type := { apiKey : string }.

Record Response : Type := { text : option string }.

Record World : Type := {
  now : N;                                        (* Date.now() *)
  API_KEY : option string;                        (* process.env.API_KEY *)
  exifr_parse : File -> outcome (option Exifr.Output);
  toLocaleString : Exifr.DateTag -> string;       (* new Date(v).toLocaleString() *)
  readAsDataURL : File -> ReaderOutcome;
  generateContent : GoogleGenAI -> option string -> outcome Response;
  loadImage : url -> ImageOutcome;
  getContext2d : bool;                            (* canvas.getContext('2d') is not null *)
  toBlob : N -> N -> string -> Q -> option Blob
}.

(** Truthiness of the values that are tested. *)
Definition truthy_string (s : option string) : bool :=
  match s with
  | Some (String _ _) => true
  | _ => false
  end.

Definition truthy_date (d : option Exifr.DateTag) : bool :=
  match d with
  | Some (Exifr.DateObject _) => true
  | Some (Exifr.DateText s) => truthy_string (Some s)
  | None => false
  end.

(** [n.toString()] for a non-negative integer. *)
Definition toString (n : N) : string :=
  NilEmpty.string_of_uint (N.to_uint n).

(** [s.split(sep)] for a one-character separator. *)
Fixpoint split (sep : ascii) (s : string) : list string :=
  match s with
  | EmptyString => [EmptyString]
  | String c rest =>
      if Ascii.eqb c sep then EmptyString :: split sep rest
      else match split sep rest with
           | h :: t => String c h :: t
           | [] => [String c EmptyString]
           end
  end.

(* ================================================================== *)
(** * services/imageService.ts *)
(* ================================================================== *)

Definition exifr_parse_async (w : World) (f : File)
  : async (option Exifr.Output) :=
  settle (exifr_parse w f).

(** [extractExifData], lines 7-35. *)
Definition extractExifData (w : World) (f : File) : async (option ExifData) :=
  try_catch
    (output <- exifr_parse_async w f ;;
     match output with
     | None => Ret None                                   (* line 15 *)
     | Some output =>
         Ret (Some {|
           make := Exifr.Make output;
           model := Exifr.Model output;
           dateTimeOriginal :=
             if truthy_date (Exifr.DateTimeOriginal output)
             then option_map (toLocaleString w) (Exifr.DateTimeOriginal output)
             else None;
           exposureTime := Exifr.ExposureTime output;
           fNumber := Exifr.FNumber output;
           iso := Exifr.ISO output;
           focalLength := Exifr.FocalLength output;
           latitude := Exifr.latitude output;
           longitude := Exifr.longitude output;
           software := Exifr.Software output;
           width := Exifr.ExifImageWidth output;
           height := Exifr.ExifImageHeight output
         |})
     end)
    (fun error =>
       perform (ConsoleError (Some "Failed to extract EXIF") error) ;;
       Ret None).

(** [cleanImageMetadata], lines 41-64.  The promise settles in [img.onload]
    (through the [toBlob] callback) or in [img.onerror]. *)
Definition cleanImageMetadata (w : World) (imageUrl : url) (format : string)
  : async (option Blob) :=
  Await
    match loadImage w imageUrl with
    | ImageLoaded iw ih =>
        if getContext2d w then
          Await (Ret (toBlob w iw ih format (95 # 100)))  (* resolve(blob) *)
        else Throw (Error "Could not get canvas context")
    | ImageError err => Throw err
    end.

Definition default_format : string := "image/jpeg".

(** [fileToBase64], lines 66-81.  The payload is [result.split(',')[1]],
    which is [undefined] ([None]) when the text has no comma. *)
Definition fileToBase64 (w : World) (f : File) : async (option string) :=
  Await
    match readAsDataURL w f with
    | OnLoad (ResultString s) => Ret (nth_error (split "," s) 1)
    | OnLoad ResultOther => Throw (Error "Failed to convert file to base64")
    | OnError error => Throw error
    end.

(* ================================================================== *)
(** * services/geminiService.ts *)
(* ================================================================== *)

(** [getAiClient], lines 4-10. *)
Definition getAiClient (w : World) : async GoogleGenAI :=
  if truthy_string (API_KEY w) then
    match API_KEY w with
    | Some k => Ret {| apiKey := k |}
    | None => Throw (Error "API Key not found in environment variables")
    end
  else Throw (Error "API Key not found in environment variables").

(** The record built in the [catch] block, lines 107-121. *)
Definition fallback : AIAnalysisResult :=
  JObj [ ("objects", JArr []);
         ("peopleCount", JNum 0);
         ("sceneType", JStr "Unknown");
         ("imageCategory", JStr "Other");
         ("dominantColors", JArr []);
         ("faceEmotion", JStr "None");
         ("isSafe", JBool true);
         ("authenticity",
           JObj [ ("isLikelyEdited", JBool false);
                  ("reason", JStr "Analysis failed");
                  ("score", JNum 0) ]);
         ("ocrText", JStr EmptyString) ].

(** Lines 97-102: what is done with the response. *)
Definition read_response (response : Response) : async AIAnalysisResult :=
  if truthy_string (text response) then
    match text response with
    | Some t =>
        match JSON.parse t with
        | Some result => Ret result
        | None => Throw SyntaxError
        end
    | None => Throw (Error "No response text from Gemini")
    end
  else Throw (Error "No response text from Gemini").

(** [analyzeImageWithGemini], lines 12-123. *)
Definition analyzeImageWithGemini (w : World) (base64Image : option string)
  : async AIAnalysisResult :=
  try_catch
    (ai <- getAiClient w ;;
     perform (Request (apiKey ai) base64Image) ;;
     response <- settle (generateContent w ai base64Image) ;;
     read_response response)
    (fun error =>
       perform (ConsoleError (Some "Gemini Analysis Error:") error) ;;
       Ret fallback).

(* ================================================================== *)
(** * App.tsx *)
(* ================================================================== *)

Definition with_exif (exifData : option ExifData) (prev : option ProcessedImage)
  : option ProcessedImage :=
  match prev with
  | Some p =>
      Some {| id := id p; file := file p; previewUrl := previewUrl p;
              exif := exifData;
              aiAnalysis := aiAnalysis p; isProcessing := isProcessing p;
              error := error p |}
  | None => None
  end.

(** The field [aiAnalysis] holds [null] before the analysis is in; a parsed
    value that is JSON's [null] is that same [null]. *)
Definition nullable (v : json) : option AIAnalysisResult :=
  match v with
  | JNull => None
  | _ => Some v
  end.

Definition with_analysis (aiResult : AIAnalysisResult)
  (prev : option ProcessedImage) : option ProcessedImage :=
  match prev with
  | Some p =>
      Some {| id := id p; file := file p; previewUrl := previewUrl p;
              exif := exif p;
              aiAnalysis := nullable aiResult; isProcessing := false;
              error := error p |}
  | None => None
  end.

Definition failure_notice : string := "Failed to process image fully.".

Definition with_error (prev : option ProcessedImage) : option ProcessedImage :=
  match prev with
  | Some p =>
      Some {| id := id p; file := file p; previewUrl := previewUrl p;
              exif := exif p;
              aiAnalysis := aiAnalysis p; isProcessing := false;
              error := Some failure_notice |}
  | None => None
  end.

Definition newImage (w : World) (f : File) (u : url) : ProcessedImage :=
  {| id := toString (now w); file := f; previewUrl := u;
     exif := None; aiAnalysis := None; isProcessing := true;
     error := None |}.

(** [handleImageSelect], lines 29-69. *)
Definition handleImageSelect (w : World) (f : File) : async unit :=
  CreateObjectURL (OfFile f) (fun previewUrl =>            (* line 30 *)
    setData (fun _ => Some (newImage w f previewUrl)) ;;    (* line 42 *)
    perform (SetShowCamera false) ;;                        (* line 43 *)
    try_catch
      (exifData <- extractExifData w f ;;                   (* line 47 *)
       setData (with_exif exifData) ;;                      (* line 49 *)
       base64 <- fileToBase64 w f ;;                        (* line 52 *)
       aiResult <- analyzeImageWithGemini w base64 ;;       (* line 53 *)
       setData (with_analysis aiResult))                    (* line 55 *)
      (fun err =>
         perform (ConsoleError None err) ;;                 (* line 62 *)
         setData with_error)).                              (* line 63 *)

(** [handlePrivacyClean], lines 82-99; [data] is the state the handler
    closed over. *)
Definition handlePrivacyClean (w : World) (data : option ProcessedImage)
  : async unit :=
  match data with
  | None => Ret tt                                          (* line 83 *)
  | Some d =>
      try_catch
        (blob <- cleanImageMetadata w (previewUrl d) default_format ;;
         match blob with
         | Some b =>
             CreateObjectURL (OfBlob b) (fun u =>
               perform (ClickDownload ("clean_" ++ name (file d)) u) ;;
               perform (RevokeObjectURL u))
         | None => Ret tt
         end)
        (fun _ => perform (Alert "Failed to create clean image."))
  end.

(** The close button, line 344. *)
Definition handleDiscard : async unit := setData (fun _ => None).

(* ================================================================== *)
(** * Running handlers *)
(* ================================================================== *)

Record App : Type := {
  data : option ProcessedImage;
  next_url : N;
  log : list effect
}.

Definition initial : App := {| data := None; next_url := 0; log := [] |}.

Inductive status (A : Type) : Type :=
| Finished (a : A)
| Failed (e : exn)
| Suspended (k : async A).
Arguments Finished {A} a.
Arguments Failed {A} e.
Arguments Suspended {A} k.

(** Run up to the next suspension point. *)
Fixpoint run {A : Type} (m : async A) (st : App) : App * status A :=
  match m with
  | Ret a => (st, Finished a)
  | Throw e => (st, Failed e)
  | Await k => (st, Suspended k)
  | Do e k =>
      run k {| data := data st; next_url := next_url st;
               log := log st ++ [e] |}
  | SetData u k =>
      run k {| data := u (data st); next_url := next_url st; log := log st |}
  | CreateObjectURL src k =>
      run (k (next_url st))
          {| data := data st; next_url := N.succ (next_url st);
             log := log st ++ [ObjectURLCreated (next_url st) src] |}
  end.

(** Run to the end with nothing else scheduled in between. *)
Fixpoint run_alone {A : Type} (m : async A) (st : App) : App * outcome A :=
  match m with
  | Ret a => (st, Resolved a)
  | Throw e => (st, Rejected e)
  | Await k => run_alone k st
  | Do e k =>
      run_alone k {| data := data st; next_url := next_url st;
                     log := log st ++ [e] |}
  | SetData u k =>
      run_alone k {| data := u (data st); next_url := next_url st;
                     log := log st |}
  | CreateObjectURL src k =>
      run_alone (k (next_url st))
          {| data := data st; next_url := N.succ (next_url st);
             log := log st ++ [ObjectURLCreated (next_url st) src] |}
  end.

(** The page: the state and the handler invocations that are suspended. *)
Record Page : Type := {
  app : App;
  inflight : list (async unit)
}.

Definition start : Page := {| app := initial; inflight := [] |}.

Inductive event : Type :=
| Select (w : World) (f : File)      (* upload, drop or capture *)
| Discard                            (* the close button *)
| PrivacyClean (w : World)           (* the clean-copy button *)
| Resume (i : nat).                  (* the i-th suspended invocation goes on *)

Definition launch (m : async unit) (p : Page) : Page :=
  match run m (app p) with
  | (st, Suspended k) => {| app := st; inflight := inflight p ++ [k] |}
  | (st, _) => {| app := st; inflight := inflight p |}
  end.

Fixpoint remove_nth {A : Type} (i : nat) (l : list A) : list A :=
  match i, l with
  | _, [] => []
  | O, _ :: t => t
  | S j, h :: t => h :: remove_nth j t
  end.

Fixpoint replace_nth {A : Type} (i : nat) (x : A) (l : list A) : list A :=
  match i, l with
  | _, [] => []
  | O, _ :: t => x :: t
  | S j, h :: t => h :: replace_nth j x t
  end.

(** The i-th suspended invocation runs up to its next suspension point (and
    keeps its place in the list) or to its end (and leaves the list). *)
Definition resume (i : nat) (p : Page) : Page :=
  match nth_error (inflight p) i with
  | Some k =>
      match run k (app p) with
      | (st, Suspended k') =>
          {| app := st; inflight := replace_nth i k' (inflight p) |}
      | (st, _) => {| app := st; inflight := remove_nth i (inflight p) |}
      end
  | None => p
  end.

Definition step (p : Page) (e : event) : Page :=
  match e with
  | Select w f => launch (handleImageSelect w f) p
  | Discard => launch handleDiscard p
  | PrivacyClean w => launch (handlePrivacyClean w (data (app p))) p
  | Resume i => resume i p
  end.

Definition execute (es : list event) (p : Page) : Page :=
  fold_left step es p.

(** The effects a computation adds to the log when it runs alone. *)
Definition emitted {A : Type} (m : async A) (st : App) : list effect :=
  skipn (List.length (log st)) (log (fst (run_alone m st))).

(** How many times [URL.revokeObjectURL(u)] was called. *)
Fixpoint count_revoked (u : url) (l : list effect) : nat :=
  match l with
  | [] => O
  | RevokeObjectURL v :: rest =>
      if N.eqb u v then S (count_revoked u rest) else count_revoked u rest
  | _ :: rest => count_revoked u rest
  end.

Definition is_request (e : effect) : bool :=
  match e with
  | Request _ _ => true
  | _ => false
  end.

(* ================================================================== *)
(** * Notions used in the statements *)
(* ================================================================== *)

(** The state with one more entry, or some more entries, in its log. *)
Definition add_log (st : App) (e : effect) : App :=
  {| data := data st; next_url := next_url st; log := log st ++ [e] |}.

Definition missing_key : exn :=
  Error "API Key not found in environment variables".
Definition no_text : exn := Error "No response text from Gemini".
Definition gemini_label : option string := Some "Gemini Analysis Error:".

(** The client that [getAiClient] builds, when it builds one. *)
Definition client_of (w : World) : option GoogleGenAI :=
  match API_KEY w with
  | Some (String c k) => Some {| apiKey := String c k |}
  | _ => None
  end.

(** The fault, if any, that sends a call into its [catch] block: missing
    credential, network failure, empty response text, parse failure. *)
Definition analysis_fault (w : World) (base64Image : option string)
  : option exn :=
  match client_of w with
  | None => Some missing_key
  | Some ai =>
      match generateContent w ai base64Image with
      | Rejected e => Some e
      | Resolved response =>
          match text response with
          | Some (String c t) =>
              match JSON.parse (String c t) with
              | Some _ => None
              | None => Some SyntaxError
              end
          | _ => Some no_text
          end
      end
  end.

(** The parsed answer of the service, when there is one. *)
Definition service_answer (w : World) (base64Image : option string)
  : option json :=
  match client_of w with
  | None => None
  | Some ai =>
      match generateContent w ai base64Image with
      | Rejected _ => None
      | Resolved response =>
          match text response with
          | Some (String c t) => JSON.parse (String c t)
          | _ => None
          end
      end
  end.

(** The request of a call, when the call gets as far as sending one. *)
Definition sent (w : World) (base64Image : option string) : list effect :=
  match client_of w with
  | Some ai => [Request (apiKey ai) base64Image]
  | None => []
  end.

Definition add_logs (st : App) (es : list effect) : App :=
  {| data := data st; next_url := next_url st; log := log st ++ es |}.

(** The fields the request schema lists as required (line 92). *)
Definition required_fields : list string :=
  [ "objects"; "peopleCount"; "sceneType"; "imageCategory";
    "dominantColors"; "faceEmotion"; "isSafe"; "authenticity"; "ocrText" ].

(** A parsed value that is an object with every required field. *)
Definition has_required_fields (v : json) : bool :=
  match v with
  | JObj props =>
      forallb (fun k => match get k props with
                        | Some _ => true
                        | None => false
                        end) required_fields
  | _ => false
  end.

Definition is_record (v : json) : bool :=
  match v with
  | JObj _ => true
  | _ => false
  end.

Definition encode_error : exn := Error "Failed to convert file to base64".

(** The whole of [fileToBase64]. *)
Definition encoded (w : World) (f : File) : outcome (option string) :=
  match readAsDataURL w f with
  | OnLoad (ResultString s) => Resolved (nth_error (split "," s) 1)
  | OnLoad ResultOther => Rejected encode_error
  | OnError error => Rejected error
  end.

(** What the extraction and the analysis leave behind, as functions of the
    platform's verdicts. *)
Definition extracted (w : World) (f : File) : option ExifData :=
  match snd (run_alone (extractExifData w f) initial) with
  | Resolved r => r
  | Rejected _ => None
  end.

Definition extract_log (w : World) (f : File) : list effect :=
  match exifr_parse w f with
  | Rejected e => [ConsoleError (Some "Failed to extract EXIF") e]
  | Resolved _ => []
  end.

Definition analysis_value (w : World) (payload : option string) : json :=
  match analysis_fault w payload, service_answer w payload with
  | None, Some v => v
  | _, _ => fallback
  end.

Definition analysis_log (w : World) (payload : option string) : list effect :=
  sent w payload ++
  match analysis_fault w payload with
  | Some e => [ConsoleError gemini_label e]
  | None => []
  end.

Definition settled (w : World) (f : File) (u : url)
  (analysis : option AIAnalysisResult) (err : option string)
  : ProcessedImage :=
  {| id := toString (now w); file := f; previewUrl := u;
     exif := extracted w f; aiAnalysis := analysis;
     isProcessing := false; error := err |}.



(** The whole of [cleanImageMetadata]. *)
Definition cleaned (w : World) (imageUrl : url) (format : string)
  : outcome (option Blob) :=
  match loadImage w imageUrl with
  | ImageLoaded iw ih =>
      if getContext2d w then Resolved (toBlob w iw ih format (95 # 100))
      else Rejected (Error "Could not get canvas context")
  | ImageError err => Rejected err
  end.

Definition is_alert (e : effect) : bool :=
  match e with
  | Alert _ => true
  | _ => false
  end.

Definition is_download (e : effect) : bool :=
  match e with
  | ClickDownload _ _ => true
  | _ => false
  end.

(** An updater that replaces no record by another: it keeps the identity of
    the record it is given (or drops it), and makes none out of nothing. *)
Definition kept (d d' : option ProcessedImage) : Prop :=
  match d, d' with
  | Some r, Some r' =>
      id r' = id r /\ previewUrl r' = previewUrl r /\ file r' = file r
  | None, Some _ => False
  | _, None => True
  end.

Definition keeps_record (u : option ProcessedImage -> option ProcessedImage)
  : Prop :=
  forall prev, kept prev (u prev).

(** Effects that neither make nor release an object URL. *)
Definition benign (e : effect) : Prop :=
  match e with
  | RevokeObjectURL _ => False
  | ObjectURLCreated _ _ => False
  | _ => True
  end.

(** Computations that start no record and touch no object URL, except for a
    URL they make from a blob and release right after one effect. *)
Inductive tame {A : Type} : async A -> Prop :=
| tame_ret (a : A) : tame (Ret a)
| tame_throw (e : exn) : tame (Throw e)
| tame_await (k : async A) : tame k -> tame (Await k)
| tame_do (e : effect) (k : async A) : benign e -> tame k -> tame (Do e k)
| tame_set u (k : async A) : keeps_record u -> tame k -> tame (SetData u k)
| tame_blob (b : Blob) (k : url -> async A)
    (e : url -> effect) (k' : url -> async A) :
    (forall u, k u = Do (e u) (Do (RevokeObjectURL u) (k' u))) ->
    (forall u, benign (e u)) ->
    (forall u, tame (k' u)) ->
    tame (CreateObjectURL (OfBlob b) k).

(** What is left of [handleImageSelect] once the new record is installed. *)
Definition pipeline (w : World) (f : File) : async unit :=
  try_catch
    (exifData <- extractExifData w f ;;
     setData (with_exif exifData) ;;
     base64 <- fileToBase64 w f ;;
     aiResult <- analyzeImageWithGemini w base64 ;;
     setData (with_analysis aiResult))
    (fun err =>
       perform (ConsoleError None err) ;;
       setData with_error).

(** The ledger of object URLs: serial numbers are handed out in order; a
    URL made for a file has not been released, a URL made for a blob has
    been released once. *)
Record ledger (st : App) : Prop := {
  created_below :
    forall u src, In (ObjectURLCreated u src) (log st) -> (u < next_url st)%N;
  revoked_below :
    forall u, In (RevokeObjectURL u) (log st) -> (u < next_url st)%N;
  previews_kept :
    forall u f, In (ObjectURLCreated u (OfFile f)) (log st) ->
                count_revoked u (log st) = O;
  downloads_released :
    forall u b, In (ObjectURLCreated u (OfBlob b)) (log st) ->
                count_revoked u (log st) = 1%nat
}.

(** A page whose ledger is in order and whose suspended invocations are
    all tame. *)
Record sound (p : Page) : Prop := {
  sound_ledger : ledger (app p);
  sound_tasks : Forall tame (inflight p)
}.

(** The state right after lines 30-43 of [handleImageSelect]. *)
Definition opened (w : World) (f : File) (st : App) : App :=
  {| data := Some (newImage w f (next_url st));
     next_url := N.succ (next_url st);
     log := (log st ++ [ObjectURLCreated (next_url st) (OfFile f)])
              ++ [SetShowCamera false] |}.

(** An invocation of [handleImageSelect] that is suspended at line 53,
    waiting for the service to answer the request it has sent. *)
Definition awaiting_response (w : World) (ai : GoogleGenAI)
  (base64 : option string) : async unit :=
  try_catch
    (aiResult <-
       try_catch
         (response <- match generateContent w ai base64 with
                      | Resolved a => Ret a
                      | Rejected e => Throw e
                      end ;;
          read_response response)
         (fun error =>
            perform (ConsoleError gemini_label error) ;;
            Ret fallback) ;;
     setData (with_analysis aiResult))
    (fun err =>
       perform (ConsoleError None err) ;;
       setData with_error).

(** The active record's preview URL is one that was made for its file. *)
Definition registered (st : App) : Prop :=
  forall r, data st = Some r ->
    In (ObjectURLCreated (previewUrl r) (OfFile (file r))) (log st).

(** [awaits_le n m]: on every path, [m] is suspended at most [n] times. *)
Inductive awaits_le {A : Type} : nat -> async A -> Prop :=
| awaits_ret n (a : A) : awaits_le n (Ret a)
| awaits_throw n (e : exn) : awaits_le n (Throw e)
| awaits_await n (k : async A) : awaits_le n k -> awaits_le (S n) (Await k)
| awaits_do n (e : effect) (k : async A) : awaits_le n k -> awaits_le n (Do e k)
| awaits_set n u (k : async A) : awaits_le n k -> awaits_le n (SetData u k)
| awaits_url n (src : source) (k : url -> async A) :
    (forall u, awaits_le n (k u)) -> awaits_le n (CreateObjectURL src k).

(* ================================================================== *)
(** * Sample platform behaviours and schedules *)
(* ================================================================== *)

Module Sample.

Definition fileA : File := {| name := "a.jpg"; lastModified := 1 |}.
Definition fileB : File := {| name := "b.jpg"; lastModified := 2 |}.

(** A complete answer of the service, with one detected object. *)
Definition answer_for (label : string) : string :=
  "{" ++ quoted "objects" ++ ":[" ++ quoted label ++ "],"
      ++ quoted "peopleCount" ++ ":0,"
      ++ quoted "sceneType" ++ ":" ++ quoted "Indoor" ++ ","
      ++ quoted "imageCategory" ++ ":" ++ quoted "Photo" ++ ","
      ++ quoted "dominantColors" ++ ":[" ++ quoted "#ffffff" ++ "],"
      ++ quoted "faceEmotion" ++ ":" ++ quoted "None" ++ ","
      ++ quoted "isSafe" ++ ":true,"
      ++ quoted "authenticity" ++ ":{"
           ++ quoted "isLikelyEdited" ++ ":false,"
           ++ quoted "reason" ++ ":" ++ quoted "no artifacts" ++ ","
           ++ quoted "score" ++ ":12.5},"
      ++ quoted "ocrText" ++ ":" ++ quoted EmptyString ++ "}".

Definition result_for (label : string) : json :=
  JObj [ ("objects", JArr [JStr label]);
         ("peopleCount", JNum 0);
         ("sceneType", JStr "Indoor");
         ("imageCategory", JStr "Photo");
         ("dominantColors", JArr [JStr "#ffffff"]);
         ("faceEmotion", JStr "None");
         ("isSafe", JBool true);
         ("authenticity",
           JObj [ ("isLikelyEdited", JBool false);
                  ("reason", JStr "no artifacts");
                  ("score", JNum (25 # 2)) ]);
         ("ocrText", JStr EmptyString) ].

Definition answerA : string := answer_for "cat".
Definition resultA : json := result_for "cat".
Definition answerB : string := answer_for "dog".

Definition no_tags : Exifr.Output :=
  {| Exifr.Make := None; Exifr.Model := None; Exifr.DateTimeOriginal := None;
     Exifr.ExposureTime := None; Exifr.FNumber := None; Exifr.ISO := None;
     Exifr.FocalLength := None; Exifr.latitude := None;
     Exifr.longitude := None; Exifr.Software := None;
     Exifr.ExifImageWidth := None; Exifr.ExifImageHeight := None |}.

(** A platform on which everything works: the clock reads [t], the service
    answers [answer]. *)
Definition world (t : N) (answer : option string) : World :=
  {| now := t;
     API_KEY := Some "key";
     exifr_parse := fun _ => Resolved (Some no_tags);
     toLocaleString := fun _ => "1/1/2024, 12:00:00 PM";
     readAsDataURL :=
       fun _ => OnLoad (ResultString "data:image/jpeg;base64,/9j/4AAQ");
     generateContent := fun _ _ => Resolved {| text := answer |};
     loadImage := fun _ => ImageLoaded 640 480;
     getContext2d := true;
     toBlob := fun _ _ fmt _ => Some {| blob_type := fmt; blob_size := 1000 |}
  |}.

Definition with_key (k : option string) (w : World) : World :=
  {| now := now w; API_KEY := k; exifr_parse := exifr_parse w;
     toLocaleString := toLocaleString w; readAsDataURL := readAsDataURL w;
     generateContent := generateContent w; loadImage := loadImage w;
     getContext2d := getContext2d w; toBlob := toBlob w |}.

Definition with_reader (r : ReaderOutcome) (w : World) : World :=
  {| now := now w; API_KEY := API_KEY w; exifr_parse := exifr_parse w;
     toLocaleString := toLocaleString w; readAsDataURL := fun _ => r;
     generateContent := generateContent w; loadImage := loadImage w;
     getContext2d := getContext2d w; toBlob := toBlob w |}.

Definition with_exifr (o : outcome (option Exifr.Output)) (w : World) : World :=
  {| now := now w; API_KEY := API_KEY w; exifr_parse := fun _ => o;
     toLocaleString := toLocaleString w; readAsDataURL := readAsDataURL w;
     generateContent := generateContent w; loadImage := loadImage w;
     getContext2d := getContext2d w; toBlob := toBlob w |}.

Definition with_network (o : outcome Response) (w : World) : World :=
  {| now := now w; API_KEY := API_KEY w; exifr_parse := exifr_parse w;
     toLocaleString := toLocaleString w; readAsDataURL := readAsDataURL w;
     generateContent := fun _ _ => o; loadImage := loadImage w;
     getContext2d := getContext2d w; toBlob := toBlob w |}.

Definition with_no_bytes (w : World) : World :=
  {| now := now w; API_KEY := API_KEY w; exifr_parse := exifr_parse w;
     toLocaleString := toLocaleString w; readAsDataURL := readAsDataURL w;
     generateContent := generateContent w; loadImage := loadImage w;
     getContext2d := getContext2d w; toBlob := fun _ _ _ _ => None |}.

Definition worldA : World := world 1700000000000 (Some answerA).
Definition worldB : World := world 1700000000500 (Some answerB).

End Sample.

Module Incomplete.
(** The service answers with an object that has [objects] and nothing
    else. *)
Definition answer : string := "{" ++ quoted "objects" ++ ":[]}".
Definition w : World := Sample.world 1700000000000 (Some answer).
Definition payload : option string := Some "/9j/4AAQ".

(** The service answers with an empty array. *)
Definition w_array : World := Sample.world 1700000000000 (Some "[]").
End Incomplete.

Module NoKey.
Definition w : World := Sample.with_key None Sample.worldA.
End NoKey.

Module NoBytes.
Definition w : World := Sample.with_no_bytes Sample.worldA.
Definition record : ProcessedImage := newImage Sample.worldA Sample.fileA 0%N.
Definition st : App :=
  app (execute [Select Sample.worldA Sample.fileA] start).
End NoBytes.

Module Overlap.
Import Sample.

(** Record A is selected, its metadata and its payload are ready, its
    request is sent; record B is selected; A's answer arrives. *)
Definition schedule : list event :=
  [Select worldA fileA; Resume 0; Resume 0; Select worldB fileB; Resume 0].

Definition before_arrival : Page :=
  execute [Select worldA fileA; Resume 0; Resume 0; Select worldB fileB]
    start.
End Overlap.

Module Superseded.
Import Sample.
(** Record A is superseded by record B, then B is discarded. *)
Definition schedule : list event :=
  [Select worldA fileA; Select worldB fileB; Discard].
End Superseded.

Module SameTick.
Import Sample.
(** Two selections for which the clock reads the same millisecond. *)
Definition first : World := world 1700000000000 (Some answerA).
Definition second : World := world 1700000000000 (Some answerB).
Definition schedule : list event :=
  [Select first fileA; Select second fileB].
End SameTick.

(* ================================================================== *)
(** * Further notions: payloads, effects of one selection *)
(* ================================================================== *)

(** A text without a comma. *)
Fixpoint no_comma (s : string) : bool :=
  match s with
  | EmptyString => true
  | String c rest => negb (Ascii.eqb c ",") && no_comma rest
  end.

(** The text up to its first comma (all of it when there is none). *)
Fixpoint up_to_comma (s : string) : string :=
  match s with
  | EmptyString => EmptyString
  | String c rest =>
      if Ascii.eqb c "," then EmptyString else String c (up_to_comma rest)
  end.

(** The effects one run of a handler adds to the log of a page. *)
Definition added (before after : App) : list effect :=
  skipn (List.length (log before)) (log after).

Module Encoded.
(** A parser that rejects. *)
Definition unreadable : World :=
  Sample.with_exifr (Rejected (Failure "Unknown file format")) Sample.worldA.
Definition record : ProcessedImage := newImage Sample.worldA Sample.fileA 0%N.
End Encoded.

(** What holds of the active record at every moment: while it is marked as
    processing it has neither an analysis nor an error; its error, if any,
    is the fixed notice; its id is the decimal text of a clock reading. *)
Definition consistent (d : option ProcessedImage) : Prop :=
  match d with
  | None => True
  | Some r =>
      (isProcessing r = true -> aiAnalysis r = None /\ error r = None) /\
      (error r = None \/ error r = Some failure_notice) /\
      (exists t, id r = toString t)
  end.

Definition preserves (u : option ProcessedImage -> option ProcessedImage)
  : Prop :=
  forall d, consistent d -> consistent (u d).

(** Computations all of whose state updates keep the record consistent. *)
Inductive careful {A : Type} : async A -> Prop :=
| careful_ret (a : A) : careful (Ret a)
| careful_throw (e : exn) : careful (Throw e)
| careful_await (k : async A) : careful k -> careful (Await k)
| careful_do (e : effect) (k : async A) : careful k -> careful (Do e k)
| careful_set u (k : async A) :
    preserves u -> careful k -> careful (SetData u k)
| careful_url (src : source) (k : url -> async A) :
    (forall u, careful (k u)) -> careful (CreateObjectURL src k).

(* ================================================================== *)
(** * App.tsx: the other ways in *)
(* ================================================================== *)

(** What a handler leaves on the event it was given, and what it starts. *)
Record Handled : Type := {
  defaultPrevented : bool;
  work : async unit
}.

(** [handleDragOver], lines 71-73. *)
Definition handleDragOver : Handled :=
  {| defaultPrevented := true; work := Ret tt |}.

(** [handleDrop], lines 75-80; [files] is [e.dataTransfer.files], [None]
    when there is no list. *)
Definition handleDrop (w : World) (files : option (list File)) : Handled :=
  {| defaultPrevented := true;
     work := match files with
             | Some (f :: _) => handleImageSelect w f
             | _ => Ret tt
             end |}.

(** What [URL.createObjectURL(undefined)] throws. *)
Definition no_file : exn := Failure "TypeError".

(** The file input's [onChange], line 309:
    [e.target.files && handleImageSelect(e.target.files[0])].  With an empty
    list the handler is called with [undefined] and fails on its first
    line, line 30. *)
Definition handleFileInput (w : World) (files : option (list File))
  : async unit :=
  match files with
  | None => Ret tt
  | Some [] => Throw no_file
  | Some (f :: _) => handleImageSelect w f
  end.

(* ================================================================== *)
(** * App.tsx: what the tabs show *)
(* ================================================================== *)

(** The render functions, lines 103-273, as functions from the state to the
    parts of the view that depend on it.  A render function either returns
    its view or throws.  How the platform writes a number is a parameter. *)
Module Render.

Record Display : Type := {
  show_number : Q -> string;          (* String(n) *)
  toFixed : Q -> N -> string          (* n.toFixed(digits) *)
}.

(** [String(n)] and [n.toFixed(digits)] on a number of the metadata: the
    texts of NaN and of the infinities are fixed by the language. *)
Definition show (d : Display) (n : number) : string :=
  match n with
  | Finite q => show_number d q
  | Infinity false => "Infinity"
  | Infinity true => "-Infinity"
  | NaN => "NaN"
  end.

Definition fixed (d : Display) (n : number) (digits : N) : string :=
  match n with
  | Finite q => toFixed d q digits
  | Infinity false => "Infinity"
  | Infinity true => "-Infinity"
  | NaN => "NaN"
  end.

Definition type_error : exn := Failure "TypeError".
Definition invalid_child : exn :=
  Failure "Objects are not valid as a React child".

(** [o >>= f] on outcomes. *)
Definition and_then {A B : Type} (o : outcome A) (f : A -> outcome B)
  : outcome B :=
  match o with
  | Resolved a => f a
  | Rejected e => Rejected e
  end.

(** Truthiness of a value; [None] is [undefined]. *)
Definition truthy (v : option json) : bool :=
  match v with
  | None => false
  | Some JNull => false
  | Some (JBool b) => b
  | Some (JNum n) => negb (Qnum n =? 0)%Z
  | Some (JStr s) => truthy_string (Some s)
  | Some (JArr _) => true
  | Some (JObj _) => true
  end.

(** [v.k] for a key that no built-in prototype defines: it throws on
    [undefined] and [null], reads an own property of an object, and is
    [undefined] on every other value. *)
Definition member (v : option json) (k : string) : outcome (option json) :=
  match v with
  | None => Rejected type_error
  | Some JNull => Rejected type_error
  | Some (JObj props) => Resolved (get k props)
  | Some _ => Resolved None
  end.

(** The text nodes a value leaves when it is used as a child: none for
    [undefined], [null], booleans and the empty string, one for a number or
    a string, those of its items for an array; an object is refused. *)
Fixpoint nodes (d : Display) (v : json) : outcome (list string) :=
  match v with
  | JNull => Resolved []
  | JBool _ => Resolved []
  | JNum n => Resolved [show_number d n]
  | JStr EmptyString => Resolved []
  | JStr s => Resolved [s]
  | JArr items =>
      (fix all (l : list json) : outcome (list string) :=
         match l with
         | [] => Resolved []
         | x :: rest =>
             match nodes d x, all rest with
             | Resolved a, Resolved b => Resolved (a ++ b)
             | Rejected e, _ => Rejected e
             | _, Rejected e => Rejected e
             end
         end) items
  | JObj _ => Rejected invalid_child
  end.

Definition child (d : Display) (v : option json) : outcome (list string) :=
  match v with
  | None => Resolved []
  | Some v => nodes d v
  end.

(** [v.map(f)]: only an array has [map]. *)
Definition map_items {A : Type} (v : option json) (f : json -> outcome A)
  : outcome (list A) :=
  match v with
  | Some (JArr items) =>
      (fix all (l : list json) : outcome (list A) :=
         match l with
         | [] => Resolved []
         | x :: rest =>
             match f x, all rest with
             | Resolved a, Resolved b => Resolved (a :: b)
             | Rejected e, _ => Rejected e
             | _, Rejected e => Rejected e
             end
         end) items
  | _ => Rejected type_error
  end.

(** [v.slice(0, 5).map(f)]: a string has [slice] but its result has no
    [map]; nothing but an array gets through. *)
Definition slice5_map {A : Type} (v : option json) (f : json -> outcome A)
  : outcome (list A) :=
  match v with
  | Some (JArr items) => map_items (Some (JArr (firstn 5 items))) f
  | _ => Rejected type_error
  end.

(** What [x && <element>] leaves: nothing for a falsy [x], except that a
    falsy number is written out; the element otherwise. *)
Inductive slot (A : Type) : Type :=
| Nothing
| Stray (text : string)
| Shown (a : A).
Arguments Nothing {A}.
Arguments Stray {A} text.
Arguments Shown {A} a.

(** [s || <span>Unknown</span>] *)
Inductive cell : Type :=
| Value (s : string)
| Unknown.

Definition or_unknown (s : option string) : cell :=
  match s with
  | Some (String c rest) => Value (String c rest)
  | _ => Unknown
  end.

Record Insights : Type := {
  scene : list string;
  category : list string;
  people : list string;               (* followed by " Person(s)" *)
  objects_shown : list (list string)
}.

Record Banner : Type := {
  latitude_text : string;
  longitude_text : option string
}.

Record Overview : Type := {
  dateTaken : cell;
  camera : cell;
  insights : slot Insights;
  location : slot Banner
}.

Definition exif_of (data : option ProcessedImage) : option ExifData :=
  match data with
  | Some d => exif d
  | None => None
  end.

Definition analysis_of (data : option ProcessedImage) : option json :=
  match data with
  | Some d => aiAnalysis d
  | None => None
  end.

Definition field {A : Type} (f : ExifData -> option A)
  (data : option ProcessedImage) : option A :=
  match exif_of data with
  | Some x => f x
  | None => None
  end.

(** The children of a list of elements, in order. *)
Fixpoint all_nodes (d : Display) (l : list json) : outcome (list (list string)) :=
  match l with
  | [] => Resolved []
  | x :: rest =>
      match nodes d x, all_nodes d rest with
      | Resolved a, Resolved b => Resolved (a :: b)
      | Rejected e, _ => Rejected e
      | _, Rejected e => Rejected e
      end
  end.

(** Lines 120-140.  The expressions are evaluated first, which is where a
    missing list of objects throws; the children are checked after that. *)
Definition render_insights (d : Display) (a : option json)
  : outcome (slot Insights) :=
  if truthy a then
    and_then (member a "sceneType") (fun sceneType =>
    and_then (member a "imageCategory") (fun imageCategory =>
    and_then (member a "peopleCount") (fun peopleCount =>
    and_then (member a "objects") (fun objects =>
    and_then (slice5_map objects (fun obj => Resolved obj)) (fun objs =>
    and_then (child d sceneType) (fun s =>
    and_then (child d imageCategory) (fun c =>
    and_then (child d peopleCount) (fun n =>
    and_then (all_nodes d objs) (fun os =>
    Resolved (Shown {| scene := s; category := c; people := n;
                       objects_shown := os |}))))))))))
  else
    match a with
    | Some (JNum n) => Resolved (Stray (show_number d n))
    | _ => Resolved Nothing
    end.

(** Lines 142-155.  [latitude && banner]: a latitude that is falsy, 0 or
    NaN, is what the expression evaluates to, and a number is written out
    where it stands; [undefined] shows nothing. *)
Definition render_location (d : Display) (data : option ProcessedImage)
  : slot Banner :=
  match field latitude data with
  | None => Nothing
  | Some lat =>
      if truthy_number lat
      then Shown {| latitude_text := fixed d lat 4;
                    longitude_text :=
                      option_map (fun lon => fixed d lon 4)
                                 (field longitude data) |}
      else Stray (show d lat)
  end.

(** [renderOverview], lines 103-158. *)
Definition renderOverview (d : Display) (data : option ProcessedImage)
  : outcome Overview :=
  and_then (render_insights d (analysis_of data)) (fun i =>
  Resolved {| dateTaken := or_unknown (field dateTimeOriginal data);
              camera := or_unknown (field model data);
              insights := i;
              location := render_location d data |}).

(** The label of a property name: a space before every capital letter, and
    no space at either end; [key.replace(/([A-Z])/g, ' $1').trim()]. *)
Definition is_upper (c : ascii) : bool :=
  let n := N_of_ascii c in (65 <=? n)%N && (n <=? 90)%N.

Definition is_space (c : ascii) : bool :=
  let n := N_of_ascii c in ((9 <=? n)%N && (n <=? 13)%N) || (n =? 32)%N.

Fixpoint space_capitals (s : string) : string :=
  match s with
  | EmptyString => EmptyString
  | String c rest =>
      if is_upper c then String " " (String c (space_capitals rest))
      else String c (space_capitals rest)
  end.

Fixpoint trim_start (s : string) : string :=
  match s with
  | EmptyString => EmptyString
  | String c rest => if is_space c then trim_start rest else s
  end.

Fixpoint trim_end (s : string) : string :=
  match s with
  | EmptyString => EmptyString
  | String c rest =>
      match trim_end rest with
      | EmptyString => if is_space c then EmptyString else String c EmptyString
      | rest' => String c rest'
      end
  end.

Definition trim (s : string) : string := trim_end (trim_start s).

Definition label (key : string) : string := trim (space_capitals key).

(** [Object.entries(data.exif)] with [value?.toString()]: the twelve
    properties of the object built by [extractExifData], in the order it
    lists them; an absent value is there as [undefined]. *)
Definition entries (d : Display) (x : ExifData)
  : list (string * option string) :=
  [ ("make", make x);
    ("model", model x);
    ("dateTimeOriginal", dateTimeOriginal x);
    ("exposureTime", option_map (show d) (exposureTime x));
    ("fNumber", option_map (show d) (fNumber x));
    ("iso", option_map (show d) (iso x));
    ("focalLength", option_map (show d) (focalLength x));
    ("latitude", option_map (show d) (latitude x));
    ("longitude", option_map (show d) (longitude x));
    ("software", software x);
    ("width", option_map (show d) (width x));
    ("height", option_map (show d) (height x)) ].

Inductive ExifTab : Type :=
| NoExif                                      (* "No EXIF data found." *)
| Table (rows : list (string * option string)).

(** [renderExif], lines 159-185. *)
Definition renderExif (d : Display) (data : option ProcessedImage) : ExifTab :=
  match exif_of data with
  | None => NoExif
  | Some x => Table (map (fun kv => (label (fst kv), snd kv)) (entries d x))
  end.

Record Swatch : Type := {
  backgroundColor : json;
  caption : list string
}.

Record Analysis : Type := {
  edited : bool;                    (* the badge reads Edited, else Original *)
  reason : list string;
  score : option json;              (* the bar is that many percent wide *)
  safe : bool;                      (* the text reads Safe, else NSFW / Unsafe *)
  emotion : list string;
  swatches : list Swatch
}.

Inductive AiTab : Type :=
| Analyzing                                   (* "Analyzing image..." *)
| Analysed (a : Analysis).

(** [renderAiAnalysis], lines 187-236; expressions first, children after. *)
Definition renderAiAnalysis (d : Display) (data : option ProcessedImage)
  : outcome AiTab :=
  let a := analysis_of data in
  if truthy a then
    and_then (member a "authenticity") (fun authenticity =>
    and_then (member a "faceEmotion") (fun faceEmotion =>
    and_then (member a "dominantColors") (fun dominantColors =>
    and_then (member a "isSafe") (fun isSafe =>
    and_then (member authenticity "isLikelyEdited") (fun isLikelyEdited =>
    and_then (member authenticity "reason") (fun reason_value =>
    and_then (member authenticity "score") (fun sc =>
    and_then (map_items dominantColors (fun c => Resolved c)) (fun colors =>
    and_then (child d reason_value) (fun r =>
    and_then (child d faceEmotion) (fun em =>
    and_then (all_nodes d colors) (fun captions =>
    Resolved (Analysed {| edited := truthy isLikelyEdited;
                          reason := r;
                          score := sc;
                          safe := truthy isSafe;
                          emotion := em;
                          swatches :=
                            map (fun ct => {| backgroundColor := fst ct;
                                              caption := snd ct |})
                                (combine colors captions) |}))))))))))))
  else Resolved Analyzing.

Inductive OcrTab : Type :=
| ProcessingOcr                               (* "Processing OCR..." *)
| NoText                                      (* "No text detected in image" *)
| OcrText (t : list string).

(** [renderOcr], lines 238-251. *)
Definition renderOcr (d : Display) (data : option ProcessedImage)
  : outcome OcrTab :=
  let a := analysis_of data in
  if truthy a then
    and_then (member a "ocrText") (fun ocrText =>
    if truthy ocrText then
      and_then (child d ocrText) (fun t => Resolved (OcrText t))
    else Resolved NoText)
  else Resolved ProcessingOcr.

(** The value has the shape that [AIAnalysisResult] declares
    ([types.ts], lines 16-30). *)
Definition is_string (v : option json) : bool :=
  match v with
  | Some (JStr _) => true
  | _ => false
  end.

Definition is_number (v : option json) : bool :=
  match v with
  | Some (JNum _) => true
  | _ => false
  end.

Definition is_boolean (v : option json) : bool :=
  match v with
  | Some (JBool _) => true
  | _ => false
  end.

Definition is_string_array (v : option json) : bool :=
  match v with
  | Some (JArr items) => forallb (fun x => is_string (Some x)) items
  | _ => false
  end.

Definition one_of (choices : list string) (v : option json) : bool :=
  match v with
  | Some (JStr s) => existsb (String.eqb s) choices
  | _ => false
  end.

Definition conforms (v : json) : bool :=
  match v with
  | JObj props =>
      is_string_array (get "objects" props)
      && is_number (get "peopleCount" props)
      && is_string (get "sceneType" props)
      && one_of ["Selfie"; "Document"; "Screenshot"; "Photo"; "Other"]
                (get "imageCategory" props)
      && is_string_array (get "dominantColors" props)
      && one_of ["Happy"; "Neutral"; "Sad"; "Angry"; "Surprised"; "None"]
                (get "faceEmotion" props)
      && is_boolean (get "isSafe" props)
      && match get "authenticity" props with
         | Some (JObj auth) =>
             is_boolean (get "isLikelyEdited" auth)
             && is_string (get "reason" auth)
             && is_number (get "score" auth)
         | _ => false
         end
      && is_string (get "ocrText" props)
  | _ => false
  end.

Definition is_resolved {A : Type} (o : outcome A) : bool :=
  match o with
  | Resolved _ => true
  | Rejected _ => false
  end.

(** A platform that writes whole numbers in decimal and nothing else. *)
Definition plain : Display :=
  {| show_number := fun n => toString (Z.to_N (Qnum n));
     toFixed := fun n _ => toString (Z.to_N (Qnum n)) |}.

End Render.

Module Shown.
(** A record whose analysis lists seven objects. *)
Definition seven : json :=
  JObj [ ("objects", JArr [JStr "a"; JStr "b"; JStr "c"; JStr "d";
                           JStr "e"; JStr "f"; JStr "g"]);
         ("peopleCount", JNum 2);
         ("sceneType", JStr "Urban");
         ("imageCategory", JStr "Photo") ].
Definition crowded : option ProcessedImage :=
  Some {| id := "1700000000000"; file := Sample.fileA; previewUrl := 0%N;
          exif := None; aiAnalysis := Some seven; isProcessing := false;
          error := None |}.
Definition view : Render.Overview :=
  {| Render.dateTaken := Render.Unknown;
     Render.camera := Render.Unknown;
     Render.insights :=
       Render.Shown {| Render.scene := ["Urban"];
                       Render.category := ["Photo"];
                       Render.people := ["2"];
                       Render.objects_shown :=
                         [["a"]; ["b"]; ["c"]; ["d"]; ["e"]] |};
     Render.location := Render.Nothing |}.
(** A parser output with a place on the equator. *)
Definition equator : Exifr.Output :=
  {| Exifr.Make := None; Exifr.Model := Some "X100";
     Exifr.DateTimeOriginal := None;
     Exifr.ExposureTime := None; Exifr.FNumber := None; Exifr.ISO := None;
     Exifr.FocalLength := None;
     Exifr.latitude := Some (Finite 0);
     Exifr.longitude := Some (Finite (-785 # 10)); Exifr.Software := None;
     Exifr.ExifImageWidth := None; Exifr.ExifImageHeight := None |}.
Definition on_equator : World :=
  Sample.with_exifr (Resolved (Some equator)) Sample.worldA.
(** A network that is down. *)
Definition offline : World :=
  Sample.with_network (Rejected (Failure "Failed to fetch")) Sample.worldA.
Definition payload : option string := Some "/9j/4AAQ".
End Shown.

(** The text without its white space. *)
Fixpoint squeeze (s : string) : string :=
  match s with
  | EmptyString => EmptyString
  | String c rest =>
      if Render.is_space c then squeeze rest else String c (squeeze rest)
  end.

(** The labels of the twelve rows of the metadata table. *)
Definition exif_labels : list string :=
  [ "make"; "model"; "date Time Original"; "exposure Time"; "f Number";
    "iso"; "focal Length"; "latitude"; "longitude"; "software"; "width";
    "height" ].

(* ================================================================== *)
(** * components/CameraCapture.tsx *)
(* ================================================================== *)

Module Camera.

(** A media stream, as the list of its tracks. *)
Definition MediaStream : Type := list N.

(** The component's state, lines 10-11. *)
Record State : Type := {
  stream : option MediaStream;
  error : string
}.

Definition mounted : State := {| stream := None; error := EmptyString |}.

(** What the device and the browser decide. *)
Record Device : Type := {
  getUserMedia : outcome MediaStream;
  videoSize : N * N;                    (* videoWidth, videoHeight *)
  getContext2d : bool;
  toBlob : N -> N -> string -> Q -> option Blob;
  clock : N;                            (* Date.now(), line 48 *)
  created : N                           (* the clock when the File is made *)
}.

Inductive action : Type :=
| StopTrack (t : N)
| SetSrcObject (s : MediaStream)
| LogError (label : string) (e : exn)
| OnCapture (f : File)
| OnClose.

Definition denied : string :=
  "Could not access camera. Please check permissions.".

(** [videoRef.current], lines 66-77: the video element is there exactly when
    no error is shown. *)
Definition videoRef (dev : Device) (st : State) : option (N * N) :=
  match error st with
  | EmptyString => Some (videoSize dev)
  | _ => None
  end.

(** [startCamera], lines 14-27. *)
Definition startCamera (dev : Device) (st : State) : State * list action :=
  match getUserMedia dev with
  | Resolved mediaStream =>
      ({| stream := Some mediaStream; error := error st |},
       match videoRef dev st with
       | Some _ => [SetSrcObject mediaStream]
       | None => []
       end)
  | Rejected err =>
      ({| stream := stream st; error := denied |},
       [LogError "Camera error:" err])
  end.

(** [stopCamera], lines 57-61. *)
Definition stopCamera (st : State) : list action :=
  match stream st with
  | Some s => map StopTrack s
  | None => []
  end.

(** [handleCapture], lines 38-55. *)
Definition handleCapture (dev : Device) (st : State) : list action :=
  match videoRef dev st with
  | Some (vw, vh) =>
      if getContext2d dev then
        match toBlob dev vw vh "image/jpeg" (95 # 100) with
        | Some blob =>
            OnCapture {| name := "capture_" ++ toString (clock dev) ++ ".jpg";
                         lastModified := created dev |}
            :: stopCamera st
        | None => []
        end
      else []
  | None => []
  end.

(** The close button, line 81. *)
Definition handleClose (st : State) : list action :=
  stopCamera st ++ [OnClose].

Definition is_capture (a : action) : bool :=
  match a with
  | OnCapture _ => true
  | _ => false
  end.

Definition is_stop (a : action) : bool :=
  match a with
  | StopTrack _ => true
  | _ => false
  end.

(** A camera that works, with two tracks. *)
Definition working : Device :=
  {| getUserMedia := Resolved [1%N; 2%N];
     videoSize := (640%N, 480%N);
     getContext2d := true;
     toBlob := fun _ _ fmt _ => Some {| blob_type := fmt; blob_size := 500 |};
     clock := 1700000000123;
     created := 1700000000124 |}.

(** A camera the user does not allow. *)
Definition refused : Device :=
  {| getUserMedia := Rejected (Failure "NotAllowedError");
     videoSize := (0%N, 0%N);
     getContext2d := true;
     toBlob := fun _ _ fmt _ => Some {| blob_type := fmt; blob_size := 500 |};
     clock := 1700000000123;
     created := 1700000000124 |}.

End Camera.

(** An invocation of [handleImageSelect] that is suspended at line 52,
    waiting for the reader. *)
Definition awaiting_reader (w : World) (f : File) : async unit :=
  try_catch
    (base64 <- match readAsDataURL w f with
               | OnLoad (ResultString s) => Ret (nth_error (split "," s) 1)
               | OnLoad ResultOther =>
                   Throw (Error "Failed to convert file to base64")
               | OnError error => Throw error
               end ;;
     aiResult <- analyzeImageWithGemini w base64 ;;
     setData (with_analysis aiResult))
    (fun err =>
       perform (ConsoleError None err) ;;
       setData with_error).

Module LateFailure.
Import Sample.
(** Record A cannot be read. *)
Definition worldA' : World :=
  with_reader (OnError (Failure "NotReadableError")) worldA.
(** Record A is selected and its metadata is in; record B is selected. *)
Definition before : Page :=
  execute [Select worldA' fileA; Resume 0; Select worldB fileB] start.
End LateFailure.

(* ================================================================== *)
(** * The metadata parser *)
(* ================================================================== *)

Module Parser.

(** Modelled from the spec: the metadata parser ([exifr]), which the sources
    call and do not contain.  Section 4.1 has it read the geolocation tags
    next to the others.  A place tag is kept as the number the parser
    computes from it. *)
Record Tags : Type := {
  GPSLatitude : option number;
  GPSLongitude : option number;
  others : Exifr.Output                 (* the properties that are not places *)
}.

(** Modelled from the spec: what the parser hands back for the tags it has
    read.  Section 4.1: "geolocation fields surface only if both latitude
    and longitude are present; one without the other is not surfaced". *)
Definition output (t : Tags) : Exifr.Output :=
  let both :=
    match GPSLatitude t, GPSLongitude t with
    | Some _, Some _ => true
    | _, _ => false
    end in
  {| Exifr.Make := Exifr.Make (others t);
     Exifr.Model := Exifr.Model (others t);
     Exifr.DateTimeOriginal := Exifr.DateTimeOriginal (others t);
     Exifr.ExposureTime := Exifr.ExposureTime (others t);
     Exifr.FNumber := Exifr.FNumber (others t);
     Exifr.ISO := Exifr.ISO (others t);
     Exifr.FocalLength := Exifr.FocalLength (others t);
     Exifr.latitude := if both then GPSLatitude t else None;
     Exifr.longitude := if both then GPSLongitude t else None;
     Exifr.Software := Exifr.Software (others t);
     Exifr.ExifImageWidth := Exifr.ExifImageWidth (others t);
     Exifr.ExifImageHeight := Exifr.ExifImageHeight (others t) |}.

(** Modelled from the spec: the parser's verdict on an asset; it fails,
    finds nothing, or hands back the output for the tags found. *)
Definition verdict (o : outcome (option Tags))
  : outcome (option Exifr.Output) :=
  match o with
  | Resolved (Some t) => Resolved (Some (output t))
  | Resolved None => Resolved None
  | Rejected e => Rejected e
  end.

(** Modelled from the spec: a platform whose parser is this one, on assets
    with the tags [tags]. *)
Definition reads (tags : File -> outcome (option Tags)) (w : World) : World :=
  {| now := now w; API_KEY := API_KEY w;
     exifr_parse := fun f => verdict (tags f);
     toLocaleString := toLocaleString w; readAsDataURL := readAsDataURL w;
     generateContent := generateContent w; loadImage := loadImage w;
     getContext2d := getContext2d w; toBlob := toBlob w |}.

(** An asset with a latitude tag and no longitude tag. *)
Definition half : Tags :=
  {| GPSLatitude := Some (Finite (377749 # 10000)); GPSLongitude := None;
     others := Sample.no_tags |}.

End Parser.

(** The schedule of one record that nothing interrupts: its selection and
    the resumptions of its three suspension points. *)
Definition alone (w : World) (f : File) (p : Page) : list event :=
  Select w f :: repeat (Resume (List.length (inflight p))) 3.

Module Crossed.
Import Sample.
(** Record A, which cannot be read, is selected and discarded before its
    reader has answered; record B is selected; A's reader answers; B is
    processed to its end. *)
Definition schedule : list event :=
  [Select LateFailure.worldA' fileA; Resume 0; Discard;
   Select worldB fileB; Resume 0; Resume 0; Resume 0; Resume 0].
End Crossed.

(** Every capital letter of the text, the first character apart, comes
    right after a space. *)
Fixpoint spaced_after (prev : ascii) (s : string) : bool :=
  match s with
  | EmptyString => true
  | String c rest =>
      (negb (Render.is_upper c) || Ascii.eqb prev " ") && spaced_after c rest
  end.

Definition spaced (s : string) : bool :=
  match s with
  | EmptyString => true
  | String c rest => spaced_after c rest
  end.

(** The number of capital letters, and of spaces, of a text. *)
Fixpoint capitals (s : string) : nat :=
  match s with
  | EmptyString => O
  | String c rest =>
      if Render.is_upper c then S (capitals rest) else capitals rest
  end.

Fixpoint blanks (s : string) : nat :=
  match s with
  | EmptyString => O
  | String c rest =>
      if Ascii.eqb c " " then S (blanks rest) else blanks rest
  end.

(** Text of ASCII letters and digits. *)
Fixpoint alphanumeric (s : string) : bool :=
  match s with
  | EmptyString => true
  | String c rest =>
      let n := N_of_ascii c in
      (((48 <=? n)%N && (n <=? 57)%N) || ((65 <=? n)%N && (n <=? 90)%N)
       || ((97 <=? n)%N && (n <=? 122)%N))
      && alphanumeric rest
  end.

(* ================================================================== *)
(** * The built-ins on a few inputs *)
(* ================================================================== *)

Example parse_complete_answer :
  JSON.parse Sample.answerA = Some Sample.resultA.
Proof. reflexivity. Qed.

Example parse_scalars :
  JSON.parse "null" = Some JNull /\
  JSON.parse " -12.50e1 " = Some (JNum (-125)) /\
  JSON.parse "[true, false]" = Some (JArr [JBool true; JBool false]) /\
  JSON.parse (quoted "a\u0041\n") = Some (JStr (String "a" (String "A"
                                         (String "010" EmptyString)))).
Proof. repeat split. Qed.

Example parse_last_key_wins :
  JSON.parse ("{" ++ quoted "a" ++ ":1," ++ quoted "b" ++ ":2,"
                  ++ quoted "a" ++ ":3}")
  = Some (JObj [("a", JNum 3); ("b", JNum 2)]).
Proof. reflexivity. Qed.

Example parse_rejects :
  JSON.parse EmptyString = None /\
  JSON.parse "{" = None /\
  JSON.parse "[1,]" = None /\
  JSON.parse "01" = None /\
  JSON.parse "1." = None /\
  JSON.parse "nul" = None /\
  JSON.parse "[1 2]" = None /\
  JSON.parse ("{" ++ quoted "a" ++ "}") = None /\
  JSON.parse "{} x" = None.
Proof. repeat split. Qed.

Example split_data_url :
  nth_error (split "," "data:image/jpeg;base64,/9j/4AAQ") 1
    = Some "/9j/4AAQ" /\
  nth_error (split "," "no comma") 1 = None /\
  split "," "a,,b" = ["a"; EmptyString; "b"].
Proof. repeat split. Qed.

Example toString_of_clock :
  toString 1700000000000 = "1700000000000" /\ toString 0 = "0".
Proof. split; reflexivity. Qed.

(* ================================================================== *)
(** * How [run_alone] goes through sequencing and [try]/[catch] *)
(* ================================================================== *)

Section RunAlone.
Context {A B : Type}.

Lemma run_alone_bind (m : async A) (f : A -> async B) :
  forall st,
    run_alone (bind m f) st =
    match run_alone m st with
    | (st', Resolved a) => run_alone (f a) st'
    | (st', Rejected e) => (st', Rejected e)
    end.
Proof.
  induction m as [a | e | k IH | e k IH | u k IH | src k IH];
    intros st; simpl; auto.
Qed.

Lemma run_alone_try_catch (m : async A) (h : exn -> async A) :
  forall st,
    run_alone (try_catch m h) st =
    match run_alone m st with
    | (st', Resolved a) => (st', Resolved a)
    | (st', Rejected e) => run_alone (h e) st'
    end.
Proof.
  induction m as [a | e | k IH | e k IH | u k IH | src k IH];
    intros st; simpl; auto.
Qed.
End RunAlone.

Lemma app_eta (st : App) :
  {| data := data st; next_url := next_url st; log := log st |} = st.
Proof. destruct st; reflexivity. Qed.

(* ================================================================== *)
(** * Metadata extraction *)
(* ================================================================== *)

(** The whole of [extractExifData], as a function of the parser's verdict. *)
Lemma extractExifData_run (w : World) (f : File) (st : App) :
  run_alone (extractExifData w f) st =
  match exifr_parse w f with
  | Rejected e =>
      (add_log st (ConsoleError (Some "Failed to extract EXIF") e),
       Resolved None)
  | Resolved None => (st, Resolved None)
  | Resolved (Some output) =>
      (st, Resolved (Some {|
         make := Exifr.Make output;
         model := Exifr.Model output;
         dateTimeOriginal :=
           if truthy_date (Exifr.DateTimeOriginal output)
           then option_map (toLocaleString w) (Exifr.DateTimeOriginal output)
           else None;
         exposureTime := Exifr.ExposureTime output;
         fNumber := Exifr.FNumber output;
         iso := Exifr.ISO output;
         focalLength := Exifr.FocalLength output;
         latitude := Exifr.latitude output;
         longitude := Exifr.longitude output;
         software := Exifr.Software output;
         width := Exifr.ExifImageWidth output;
         height := Exifr.ExifImageHeight output |}))
  end.
Proof.
  unfold extractExifData, exifr_parse_async, settle.
  destruct (exifr_parse w f) as [[output|]|e]; reflexivity.
Qed.

(** C8. Metadata extraction never raises to its caller: whatever the parser
    does with the asset, [extractExifData] settles with a value; when the
    parser fails, the failure is logged and the value is the absent result
    ([null]), which is also the value when the parser finds nothing. *)
Theorem extractExifData_never_raises (w : World) (f : File) (st : App) :
  exists r,
    snd (run_alone (extractExifData w f) st) = Resolved r /\
    match exifr_parse w f with
    | Rejected e =>
        r = None /\
        emitted (extractExifData w f) st =
          [ConsoleError (Some "Failed to extract EXIF") e]
    | Resolved None => r = None /\ emitted (extractExifData w f) st = []
    | Resolved (Some _) => r <> None /\ emitted (extractExifData w f) st = []
    end.
Proof.
  unfold emitted. rewrite extractExifData_run.
  destruct (exifr_parse w f) as [[output|]|e]; simpl;
    eexists; (split; [reflexivity|]); split;
    try reflexivity; try discriminate;
    try (rewrite skipn_all; reflexivity).
  rewrite skipn_app, skipn_all, Nat.sub_diag. reflexivity.
Qed.

(** The same holds of the suspended form: after the one suspension point the
    rest of the extraction finishes, it does not fail. *)
Lemma extractExifData_resumes (w : World) (f : File) (st : App) :
  exists k, run (extractExifData w f) st = (st, Suspended k) /\
    forall st', exists st'' r, run k st' = (st'', Finished r).
Proof.
  unfold extractExifData, exifr_parse_async, settle. simpl.
  eexists. split; [reflexivity|]. intros st'.
  destruct (exifr_parse w f) as [[output|]|e]; simpl; eauto.
Qed.

(* ================================================================== *)
(** * The analysis client *)
(* ================================================================== *)

Lemma getAiClient_run (w : World) (st : App) :
  run_alone (getAiClient w) st =
  (st, match client_of w with
       | Some ai => Resolved ai
       | None => Rejected missing_key
       end).
Proof.
  unfold getAiClient, client_of.
  destruct (API_KEY w) as [[|c k]|]; reflexivity.
Qed.

Lemma read_response_run (response : Response) (st : App) :
  run_alone (read_response response) st =
  (st, match text response with
       | Some (String c t) =>
           match JSON.parse (String c t) with
           | Some result => Resolved result
           | None => Rejected SyntaxError
           end
       | _ => Rejected no_text
       end).
Proof.
  unfold read_response.
  destruct (text response) as [[|c t]|]; simpl; try reflexivity.
  destruct (parse (String c t)); reflexivity.
Qed.

(** The whole of [analyzeImageWithGemini]. *)
Lemma analyzeImageWithGemini_run (w : World) (b : option string) (st : App) :
  run_alone (analyzeImageWithGemini w b) st =
  match analysis_fault w b with
  | Some e =>
      (add_logs st (sent w b ++ [ConsoleError gemini_label e]),
       Resolved fallback)
  | None =>
      (add_logs st (sent w b),
       Resolved match service_answer w b with
                | Some v => v
                | None => fallback
                end)
  end.
Proof.
  unfold analyzeImageWithGemini.
  rewrite run_alone_try_catch, run_alone_bind, getAiClient_run.
  unfold analysis_fault, service_answer, sent, add_logs.
  destruct (client_of w) as [ai|]; simpl.
  - unfold settle. simpl.
    destruct (generateContent w ai b) as [response|e]; simpl.
    + rewrite read_response_run.
      destruct (text response) as [[|c t]|]; simpl;
        try (rewrite <- app_assoc; reflexivity).
      destruct (parse (String c t)); simpl;
        try (rewrite <- app_assoc); reflexivity.
    + rewrite <- app_assoc. reflexivity.
  - reflexivity.
Qed.

(** C2, as stated, fails: a response whose parsed value lacks eight of the
    nine required fields is returned as it is, not replaced by the fallback
    record. *)
Lemma incomplete_answer_is_returned :
  text {| text := Some Incomplete.answer |} = Some Incomplete.answer /\
  JSON.parse Incomplete.answer = Some (JObj [("objects", JArr [])]) /\
  has_required_fields (JObj [("objects", JArr [])]) = false /\
  get "peopleCount" [("objects", JArr [])] = None /\
  snd (run_alone (analyzeImageWithGemini Incomplete.w Incomplete.payload)
         initial)
    = Resolved (JObj [("objects", JArr [])]) /\
  JObj [("objects", JArr [])] <> fallback.
Proof. repeat split; try reflexivity. discriminate. Qed.

(** C2, amended. The raw text of a response is parsed and not validated:
    when the service returns no text (or an empty text), or parsing fails,
    the fallback record is returned; when parsing succeeds the parsed value
    is returned as it is, whatever fields it has. *)
Theorem response_parsed_not_validated (w : World) (b : option string)
  (st : App) (ai : GoogleGenAI) (response : Response) :
  client_of w = Some ai ->
  generateContent w ai b = Resolved response ->
  snd (run_alone (analyzeImageWithGemini w b) st) =
  Resolved match text response with
           | Some (String c t) =>
               match JSON.parse (String c t) with
               | Some result => result
               | None => fallback
               end
           | Some EmptyString => fallback
           | None => fallback
           end.
Proof.
  intros Hai Hresp. rewrite analyzeImageWithGemini_run.
  unfold analysis_fault, service_answer. rewrite Hai, Hresp.
  destruct (text response) as [[|c t]|]; try reflexivity.
  destruct (parse (String c t)); reflexivity.
Qed.

Lemma response_parsed_not_validated_witness :
  client_of Sample.worldA = Some {| apiKey := "key" |} /\
  generateContent Sample.worldA {| apiKey := "key" |} Incomplete.payload
    = Resolved {| text := Some Sample.answerA |} /\
  snd (run_alone (analyzeImageWithGemini Sample.worldA Incomplete.payload)
         initial)
    = Resolved Sample.resultA.
Proof.
  split; [reflexivity|]. split; [reflexivity|].
  exact (response_parsed_not_validated Sample.worldA Incomplete.payload
           initial {| apiKey := "key" |} {| text := Some Sample.answerA |}
           eq_refl eq_refl).
Defined.

(** C3, as stated, fails: a response of invalid shape (here an empty array,
    which is not a record at all) is not treated as a failure; the call
    returns the array and not the fallback record. *)
Lemma invalid_shape_is_returned :
  snd (run_alone (analyzeImageWithGemini Incomplete.w_array Incomplete.payload)
         initial)
    = Resolved (JArr []) /\
  is_record (JArr []) = false /\
  has_required_fields (JArr []) = false /\
  JArr [] <> fallback.
Proof. repeat split; try reflexivity. discriminate. Qed.

(** C3, amended. The analysis operation never fails outward: for every input
    it settles with a value.  On a missing credential, a network failure, an
    empty response text or a parse failure the fault is logged and the value
    is exactly the fallback record.  Otherwise the value is the parsed
    answer of the service, returned without a check of its shape (so it
    need not be a record). *)
Theorem analyzeImageWithGemini_never_fails (w : World) (b : option string)
  (st : App) :
  exists v,
    snd (run_alone (analyzeImageWithGemini w b) st) = Resolved v /\
    match analysis_fault w b with
    | Some e =>
        v = fallback /\
        emitted (analyzeImageWithGemini w b) st
          = sent w b ++ [ConsoleError gemini_label e]
    | None =>
        service_answer w b = Some v /\
        emitted (analyzeImageWithGemini w b) st = sent w b
    end.
Proof.
  unfold emitted. rewrite analyzeImageWithGemini_run.
  assert (Hskip : forall es,
            skipn (List.length (log st)) (log st ++ es) = es).
  { intros es. rewrite skipn_app, skipn_all, Nat.sub_diag. reflexivity. }
  destruct (analysis_fault w b) as [e|] eqn:Hf; simpl.
  - eexists. split; [reflexivity|]. split; [reflexivity|]. apply Hskip.
  - destruct (service_answer w b) as [v|] eqn:Ha.
    + exists v. split; [reflexivity|]. split; [reflexivity|]. apply Hskip.
    + exfalso. revert Hf Ha. unfold analysis_fault, service_answer.
      destruct (client_of w) as [ai|]; [|discriminate].
      destruct (generateContent w ai b) as [response|]; [|discriminate].
      destruct (text response) as [[|c t]|]; try discriminate.
      destruct (parse (String c t)); discriminate.
Qed.

(** The fixed fallback record has every required field. *)
Lemma fallback_has_required_fields : has_required_fields fallback = true.
Proof. reflexivity. Qed.

(** C6, as stated, fails: the client is built inside the call, so a missing
    credential shows up at call time, once per call, as an ordinary outcome
    of the call: the fault is logged by the call's own [catch] block and the
    call returns the fallback record. *)
Lemma missing_credential_at_call_time :
  run_alone (analyzeImageWithGemini NoKey.w Incomplete.payload) initial =
  ({| data := None; next_url := 0;
      log := [ConsoleError (Some "Gemini Analysis Error:")
                (Error "API Key not found in environment variables")] |},
   Resolved fallback).
Proof. reflexivity. Qed.

(** C6, amended. Building the client without a credential (absent or empty)
    throws; the client is built at the start of every call of the analysis
    operation, so the fault arises at call time, where it is caught: nothing
    is sent to the service, the fault is logged, and the call returns the
    fallback record. *)
Theorem missing_credential_absorbed (w : World) (b : option string)
  (st : App) :
  truthy_string (API_KEY w) = false ->
  run_alone (getAiClient w) st = (st, Rejected missing_key) /\
  run_alone (analyzeImageWithGemini w b) st =
    (add_log st (ConsoleError gemini_label missing_key), Resolved fallback).
Proof.
  intros Hkey.
  assert (Hc : client_of w = None).
  { unfold client_of. destruct (API_KEY w) as [[|c k]|];
      [reflexivity | discriminate | reflexivity]. }
  split.
  - rewrite getAiClient_run, Hc. reflexivity.
  - rewrite analyzeImageWithGemini_run.
    unfold analysis_fault, sent. rewrite Hc. reflexivity.
Qed.

Lemma missing_credential_absorbed_witness :
  truthy_string (API_KEY NoKey.w) = false /\
  run_alone (getAiClient NoKey.w) initial = (initial, Rejected missing_key) /\
  run_alone (analyzeImageWithGemini NoKey.w None) initial =
    (add_log initial (ConsoleError gemini_label missing_key),
     Resolved fallback).
Proof.
  split; [reflexivity|].
  exact (missing_credential_absorbed NoKey.w None initial eq_refl).
Defined.

(* ================================================================== *)
(** * The orchestrator, one record at a time *)
(* ================================================================== *)

Lemma fileToBase64_run (w : World) (f : File) (st : App) :
  run_alone (fileToBase64 w f) st = (st, encoded w f).
Proof.
  unfold fileToBase64, encoded. simpl.
  destruct (readAsDataURL w f) as [[s|]|e]; reflexivity.
Qed.

Lemma extractExifData_run_log (w : World) (f : File) (st : App) :
  run_alone (extractExifData w f) st =
  (add_logs st (extract_log w f), Resolved (extracted w f)).
Proof.
  unfold extracted, extract_log, add_logs.
  rewrite !extractExifData_run.
  destruct (exifr_parse w f) as [[output|]|e]; simpl;
    rewrite ?app_nil_r, ?app_eta; reflexivity.
Qed.

Lemma analyzeImageWithGemini_run_log (w : World) (b : option string)
  (st : App) :
  run_alone (analyzeImageWithGemini w b) st =
  (add_logs st (analysis_log w b), Resolved (analysis_value w b)).
Proof.
  rewrite analyzeImageWithGemini_run. unfold analysis_log, analysis_value.
  destruct (analysis_fault w b); rewrite ?app_nil_r; reflexivity.
Qed.

(** The whole of [handleImageSelect] when nothing else runs in between. *)
Lemma handleImageSelect_run (w : World) (f : File) (st : App) :
  run_alone (handleImageSelect w f) st =
  let u := next_url st in
  let opening :=
    [ObjectURLCreated u (OfFile f); SetShowCamera false] ++ extract_log w f in
  match encoded w f with
  | Rejected e =>
      ({| data := Some (settled w f u None (Some failure_notice));
          next_url := N.succ u;
          log := log st ++ opening ++ [ConsoleError None e] |},
       Resolved tt)
  | Resolved payload =>
      ({| data := Some (settled w f u
                          (nullable (analysis_value w payload)) None);
          next_url := N.succ u;
          log := log st ++ opening ++ analysis_log w payload |},
       Resolved tt)
  end.
Proof.
  unfold handleImageSelect.
  cbn [run_alone bind try_catch setData perform].
  rewrite run_alone_try_catch, run_alone_bind, extractExifData_run_log.
  cbn [run_alone bind try_catch setData perform add_logs data next_url log].
  rewrite run_alone_bind, fileToBase64_run.
  destruct (encoded w f) as [payload|e].
  - rewrite run_alone_bind, analyzeImageWithGemini_run_log.
    cbn. unfold settled. rewrite <- !app_assoc. reflexivity.
  - cbn. unfold settled. rewrite <- !app_assoc. reflexivity.
Qed.

Lemma skipn_own_length {A : Type} (l es : list A) :
  skipn (List.length l) (l ++ es) = es.
Proof. rewrite skipn_app, skipn_all, Nat.sub_diag. reflexivity. Qed.

(** Running alone is running from suspension point to suspension point with
    nothing in between. *)
Lemma run_alone_run {A : Type} (m : async A) :
  forall st,
    run_alone m st =
    match run m st with
    | (st', Finished a) => (st', Resolved a)
    | (st', Failed e) => (st', Rejected e)
    | (st', Suspended k) => run_alone k st'
    end.
Proof.
  induction m as [a | e | k IH | e k IH | u k IH | src k IH];
    intros st; simpl; auto.
Qed.

(* ================================================================== *)
(** * The clean copy *)
(* ================================================================== *)

Lemma cleanImageMetadata_run (w : World) (imageUrl : url) (format : string)
  (st : App) :
  run_alone (cleanImageMetadata w imageUrl format) st
  = (st, cleaned w imageUrl format).
Proof.
  unfold cleanImageMetadata, cleaned. simpl.
  destruct (loadImage w imageUrl) as [iw ih|err]; [|reflexivity].
  destruct (getContext2d w); reflexivity.
Qed.

(** The whole of [handlePrivacyClean] on a loaded record. *)
Lemma handlePrivacyClean_run (w : World) (d : ProcessedImage) (st : App) :
  run_alone (handlePrivacyClean w (Some d)) st =
  match cleaned w (previewUrl d) default_format with
  | Resolved (Some b) =>
      ({| data := data st; next_url := N.succ (next_url st);
          log := log st ++
                 [ObjectURLCreated (next_url st) (OfBlob b);
                  ClickDownload ("clean_" ++ name (file d)) (next_url st);
                  RevokeObjectURL (next_url st)] |},
       Resolved tt)
  | Resolved None => (st, Resolved tt)
  | Rejected _ =>
      (add_log st (Alert "Failed to create clean image."), Resolved tt)
  end.
Proof.
  unfold handlePrivacyClean.
  rewrite run_alone_try_catch, run_alone_bind, cleanImageMetadata_run.
  destruct (cleaned w (previewUrl d) default_format) as [[b|]|e];
    try reflexivity.
  cbn. rewrite <- !app_assoc. reflexivity.
Qed.

(** C10. When the image loads, a drawing context is there and
    re-serialization yields no bytes (the [toBlob] callback receives
    [null]), [cleanImageMetadata] resolves with the absent result, it does
    not reject; the handler then does nothing at all: the state is as it
    was, with no download and no alert.  An alert is raised exactly when
    [cleanImageMetadata] rejects. *)
Theorem no_bytes_no_download_no_alert (w : World) (d : ProcessedImage)
  (st : App) (iw ih : N) :
  loadImage w (previewUrl d) = ImageLoaded iw ih ->
  getContext2d w = true ->
  toBlob w iw ih default_format (95 # 100) = None ->
  run_alone (cleanImageMetadata w (previewUrl d) default_format) st
    = (st, Resolved None) /\
  run_alone (handlePrivacyClean w (Some d)) st = (st, Resolved tt) /\
  filter is_download (emitted (handlePrivacyClean w (Some d)) st) = [] /\
  filter is_alert (emitted (handlePrivacyClean w (Some d)) st) = [] /\
  (forall (w' : World) (d' : ProcessedImage) (st' : App),
     filter is_alert (emitted (handlePrivacyClean w' (Some d')) st') <> [] <->
     exists e,
       snd (run_alone (cleanImageMetadata w' (previewUrl d') default_format)
              st') = Rejected e).
Proof.
  intros Hload Hctx Hblob.
  assert (Hc : cleaned w (previewUrl d) default_format = Resolved None).
  { unfold cleaned. rewrite Hload, Hctx, Hblob. reflexivity. }
  unfold emitted.
  rewrite cleanImageMetadata_run, handlePrivacyClean_run, Hc. cbn [fst].
  rewrite skipn_all.
  repeat split; try reflexivity.
  - rewrite handlePrivacyClean_run, cleanImageMetadata_run. cbn [snd].
    destruct (cleaned w' (previewUrl d') default_format) as [[b|]|e];
      cbn [fst log add_log]; rewrite ?skipn_own_length, ?skipn_all;
      intros H; try (exfalso; apply H; reflexivity).
    eauto.
  - rewrite handlePrivacyClean_run, cleanImageMetadata_run. cbn [snd].
    intros [e He]. rewrite He. cbn [fst log add_log].
    rewrite skipn_own_length. discriminate.
Qed.

Lemma no_bytes_no_download_no_alert_witness :
  loadImage NoBytes.w (previewUrl NoBytes.record) = ImageLoaded 640 480 /\
  getContext2d NoBytes.w = true /\
  toBlob NoBytes.w 640 480 default_format (95 # 100) = None /\
  data NoBytes.st = Some NoBytes.record /\
  run_alone (handlePrivacyClean NoBytes.w (data NoBytes.st)) NoBytes.st
    = (NoBytes.st, Resolved tt).
Proof.
  split; [reflexivity|]. split; [reflexivity|]. split; [reflexivity|].
  split; [reflexivity|].
  exact (proj1 (proj2 (no_bytes_no_download_no_alert NoBytes.w NoBytes.record
                         NoBytes.st 640 480 eq_refl eq_refl eq_refl))).
Defined.

(* ================================================================== *)
(** * The page: what every suspended invocation may still do *)
(* ================================================================== *)

Lemma tame_bind {A B : Type} (m : async A) (f : A -> async B) :
  tame m -> (forall a, tame (f a)) -> tame (bind m f).
Proof.
  intros Hm Hf.
  induction Hm as [a | e | k Hk IH | e k He Hk IH | u k Hu Hk IH
                  | b k e k' Heq He Hk IH]; simpl; auto.
  - constructor.
  - constructor. exact IH.
  - constructor; assumption.
  - constructor; assumption.
  - apply tame_blob with (e := e) (k' := fun u => bind (k' u) f); auto.
    intros u. rewrite Heq. reflexivity.
Qed.

Lemma tame_try_catch {A : Type} (m : async A) (h : exn -> async A) :
  tame m -> (forall e, tame (h e)) -> tame (try_catch m h).
Proof.
  intros Hm Hh.
  induction Hm as [a | e | k Hk IH | e k He Hk IH | u k Hu Hk IH
                  | b k e k' Heq He Hk IH]; simpl; auto.
  - constructor.
  - constructor. exact IH.
  - constructor; assumption.
  - constructor; assumption.
  - apply tame_blob with (e := e) (k' := fun u => try_catch (k' u) h); auto.
    intros u. rewrite Heq. reflexivity.
Qed.

Lemma tame_settle {A : Type} (o : outcome A) : tame (settle o).
Proof. unfold settle. constructor. destruct o; constructor. Qed.

Lemma tame_perform (e : effect) : benign e -> tame (perform e).
Proof. intros He. unfold perform. constructor; [exact He | constructor]. Qed.

Lemma tame_setData u : keeps_record u -> tame (setData u).
Proof. intros Hu. unfold setData. constructor; [exact Hu | constructor]. Qed.

Lemma kept_refl d : kept d d.
Proof. destruct d; simpl; auto. Qed.

Lemma kept_trans d1 d2 d3 : kept d1 d2 -> kept d2 d3 -> kept d1 d3.
Proof.
  destruct d1 as [r1|], d2 as [r2|], d3 as [r3|]; simpl; auto;
    try contradiction.
  intros (H1 & H2 & H3) (H4 & H5 & H6). repeat split; congruence.
Qed.

Lemma keeps_with_exif x : keeps_record (with_exif x).
Proof. intros [r|]; simpl; auto. Qed.

Lemma keeps_with_analysis v : keeps_record (with_analysis v).
Proof. intros [r|]; simpl; auto. Qed.

Lemma keeps_with_error : keeps_record with_error.
Proof. intros [r|]; simpl; auto. Qed.

Lemma keeps_discard : keeps_record (fun _ => None).
Proof. intros [r|]; simpl; auto. Qed.

Lemma tame_extractExifData (w : World) (f : File) :
  tame (extractExifData w f).
Proof.
  unfold extractExifData, exifr_parse_async.
  apply tame_try_catch.
  - apply tame_bind; [apply tame_settle|].
    intros [output|]; constructor.
  - intros e. apply tame_bind; [apply tame_perform; exact I|].
    intros _. constructor.
Qed.

Lemma tame_fileToBase64 (w : World) (f : File) : tame (fileToBase64 w f).
Proof.
  unfold fileToBase64. constructor.
  destruct (readAsDataURL w f) as [[s|]|e]; constructor.
Qed.

Lemma tame_analyzeImageWithGemini (w : World) (b : option string) :
  tame (analyzeImageWithGemini w b).
Proof.
  unfold analyzeImageWithGemini.
  apply tame_try_catch.
  - apply tame_bind.
    + unfold getAiClient.
      destruct (truthy_string (API_KEY w)); [|constructor].
      destruct (API_KEY w); constructor.
    + intros ai. apply tame_bind; [apply tame_perform; exact I|].
      intros _. apply tame_bind; [apply tame_settle|].
      intros response. unfold read_response.
      destruct (truthy_string (text response)); [|constructor].
      destruct (text response) as [t|]; [|constructor].
      destruct (parse t); constructor.
  - intros e. apply tame_bind; [apply tame_perform; exact I|].
    intros _. constructor.
Qed.

Lemma handleImageSelect_pipeline (w : World) (f : File) :
  handleImageSelect w f =
  CreateObjectURL (OfFile f) (fun previewUrl =>
    SetData (fun _ => Some (newImage w f previewUrl))
      (Do (SetShowCamera false) (pipeline w f))).
Proof. reflexivity. Qed.

Lemma tame_pipeline (w : World) (f : File) : tame (pipeline w f).
Proof.
  unfold pipeline. apply tame_try_catch.
  - apply tame_bind; [apply tame_extractExifData|].
    intros exifData.
    apply tame_bind; [apply tame_setData, keeps_with_exif|].
    intros _. apply tame_bind; [apply tame_fileToBase64|].
    intros base64.
    apply tame_bind; [apply tame_analyzeImageWithGemini|].
    intros aiResult. apply tame_setData, keeps_with_analysis.
  - intros err. apply tame_bind; [apply tame_perform; exact I|].
    intros _. apply tame_setData, keeps_with_error.
Qed.

Lemma tame_handleDiscard : tame handleDiscard.
Proof. apply tame_setData, keeps_discard. Qed.

Lemma tame_cleanImageMetadata (w : World) (u : url) (fmt : string) :
  tame (cleanImageMetadata w u fmt).
Proof.
  unfold cleanImageMetadata. constructor.
  destruct (loadImage w u); [|constructor].
  destruct (getContext2d w); repeat constructor.
Qed.

Lemma tame_handlePrivacyClean (w : World) (d : option ProcessedImage) :
  tame (handlePrivacyClean w d).
Proof.
  destruct d as [d|]; unfold handlePrivacyClean; [|constructor].
  apply tame_try_catch.
  - apply tame_bind; [apply tame_cleanImageMetadata|].
    intros [b|]; [|constructor].
    apply tame_blob
      with (e := fun u => ClickDownload ("clean_" ++ name (file d)) u)
           (k' := fun _ => Ret tt).
    + intros u. reflexivity.
    + intros u. exact I.
    + intros u. constructor.
  - intros e. apply tame_perform. exact I.
Qed.

(** ** The ledger of object URLs *)
Lemma count_revoked_app (u : url) (l l' : list effect) :
  count_revoked u (l ++ l') = (count_revoked u l + count_revoked u l')%nat.
Proof.
  induction l as [|e l IH]; simpl; [reflexivity|].
  destruct e; auto. destruct (N.eqb u u0); simpl; auto.
Qed.

Lemma count_revoked_absent (u : url) (l : list effect) :
  ~ In (RevokeObjectURL u) l -> count_revoked u l = O.
Proof.
  induction l as [|e l IH]; simpl; [reflexivity|].
  intros H. destruct e; try (apply IH; tauto).
  destruct (N.eqb_spec u u0) as [->|Hne].
  - exfalso. apply H. left. reflexivity.
  - apply IH. tauto.
Qed.

Lemma count_revoked_benign (u : url) (e : effect) :
  benign e -> count_revoked u [e] = O.
Proof. destruct e; simpl; auto; contradiction. Qed.

Lemma ledger_initial : ledger initial.
Proof. split; simpl; intros; contradiction. Qed.

Lemma ledger_data (st : App) (d : option ProcessedImage) :
  ledger st ->
  ledger {| data := d; next_url := next_url st; log := log st |}.
Proof. intros [H1 H2 H3 H4]. split; simpl; auto. Qed.

Lemma in_snoc {A : Type} (x y : A) (l : list A) :
  In x (l ++ [y]) <-> In x l \/ x = y.
Proof.
  rewrite in_app_iff. simpl. split; intros [H|H]; auto.
  - destruct H as [H|[]]; auto.
Qed.

Lemma ledger_benign (st : App) (e : effect) :
  ledger st -> benign e ->
  ledger {| data := data st; next_url := next_url st; log := log st ++ [e] |}.
Proof.
  intros [H1 H2 H3 H4] He. split; simpl.
  - intros u src Hin. apply in_snoc in Hin. destruct Hin as [Hin|Heq].
    + eauto.
    + subst e. contradiction.
  - intros u Hin. apply in_snoc in Hin. destruct Hin as [Hin|Heq].
    + eauto.
    + subst e. contradiction.
  - intros u f Hin. apply in_snoc in Hin. destruct Hin as [Hin|Heq].
    + rewrite count_revoked_app, count_revoked_benign by assumption.
      rewrite Nat.add_0_r. eauto.
    + subst e. contradiction.
  - intros u b Hin. apply in_snoc in Hin. destruct Hin as [Hin|Heq].
    + rewrite count_revoked_app, count_revoked_benign by assumption.
      rewrite Nat.add_0_r. eauto.
    + subst e. contradiction.
Qed.

Lemma count_revoked_fresh (st : App) :
  ledger st -> count_revoked (next_url st) (log st) = O.
Proof.
  intros L. apply count_revoked_absent. intros Hin.
  apply (revoked_below st L) in Hin. lia.
Qed.

(** A preview URL is made and not released. *)
Lemma ledger_file (st : App) (f : File) :
  ledger st ->
  ledger {| data := data st; next_url := N.succ (next_url st);
            log := log st ++ [ObjectURLCreated (next_url st) (OfFile f)] |}.
Proof.
  intros L. pose proof (count_revoked_fresh st L) as Hfresh.
  destruct L as [H1 H2 H3 H4]. split; simpl.
  - intros u src Hin. apply in_snoc in Hin. destruct Hin as [Hin|Heq].
    + apply H1 in Hin. lia.
    + inversion Heq; subst. lia.
  - intros u Hin. apply in_snoc in Hin. destruct Hin as [Hin|Heq].
    + apply H2 in Hin. lia.
    + discriminate.
  - intros u f' Hin. rewrite count_revoked_app. simpl. rewrite Nat.add_0_r.
    apply in_snoc in Hin. destruct Hin as [Hin|Heq].
    + eauto.
    + inversion Heq; subst. exact Hfresh.
  - intros u b Hin. rewrite count_revoked_app. simpl. rewrite Nat.add_0_r.
    apply in_snoc in Hin. destruct Hin as [Hin|Heq].
    + eauto.
    + discriminate.
Qed.

(** A download URL is made, used once and released. *)
Lemma ledger_blob (st : App) (b : Blob) (e : effect) :
  ledger st -> benign e ->
  ledger {| data := data st; next_url := N.succ (next_url st);
            log := ((log st ++ [ObjectURLCreated (next_url st) (OfBlob b)])
                      ++ [e]) ++ [RevokeObjectURL (next_url st)] |}.
Proof.
  intros L He. pose proof (count_revoked_fresh st L) as Hfresh.
  destruct L as [H1 H2 H3 H4]. split; simpl.
  - intros u src Hin.
    apply in_snoc in Hin. destruct Hin as [Hin|Heq]; [|discriminate].
    apply in_snoc in Hin. destruct Hin as [Hin|Heq];
      [|subst e; contradiction].
    apply in_snoc in Hin. destruct Hin as [Hin|Heq].
    + apply H1 in Hin. lia.
    + inversion Heq; subst. lia.
  - intros u Hin.
    apply in_snoc in Hin. destruct Hin as [Hin|Heq];
      [|inversion Heq; subst; lia].
    apply in_snoc in Hin. destruct Hin as [Hin|Heq];
      [|subst e; contradiction].
    apply in_snoc in Hin. destruct Hin as [Hin|Heq]; [|discriminate].
    apply H2 in Hin. lia.
  - intros u f Hin.
    apply in_snoc in Hin. destruct Hin as [Hin|Heq]; [|discriminate].
    apply in_snoc in Hin. destruct Hin as [Hin|Heq];
      [|subst e; contradiction].
    apply in_snoc in Hin. destruct Hin as [Hin|Heq]; [|discriminate].
    rewrite !count_revoked_app, (count_revoked_benign u e He). simpl.
    pose proof (H1 _ _ Hin) as Hlt.
    destruct (N.eqb_spec u (next_url st)) as [Heq|Hne]; [lia|].
    rewrite (H3 _ _ Hin). reflexivity.
  - intros u b' Hin.
    apply in_snoc in Hin. destruct Hin as [Hin|Heq]; [|discriminate].
    apply in_snoc in Hin. destruct Hin as [Hin|Heq];
      [|subst e; contradiction].
    rewrite !count_revoked_app, (count_revoked_benign u e He). simpl.
    apply in_snoc in Hin. destruct Hin as [Hin|Heq].
    + pose proof (H1 _ _ Hin) as Hlt.
      destruct (N.eqb_spec u (next_url st)) as [Heq|Hne]; [lia|].
      rewrite (H4 _ _ Hin). reflexivity.
    + inversion Heq; subst. rewrite N.eqb_refl, Hfresh. reflexivity.
Qed.

(** One run of a tame computation keeps the ledger, keeps the record, and
    leaves a tame computation behind when it is suspended. *)
Lemma run_tame {A : Type} (m : async A) :
  tame m ->
  forall st, ledger st ->
    ledger (fst (run m st)) /\
    kept (data st) (data (fst (run m st))) /\
    (forall k, snd (run m st) = Suspended k -> tame k).
Proof.
  intros Hm.
  induction Hm as [a | e | k Hk IH | e k He Hk IH | u k Hu Hk IH
                  | b k e k' Heq He Hk IH]; intros st L; simpl.
  - split; [exact L|]. split; [apply kept_refl|]. discriminate.
  - split; [exact L|]. split; [apply kept_refl|]. discriminate.
  - split; [exact L|]. split; [apply kept_refl|].
    intros k0 H. inversion H; subst. exact Hk.
  - exact (IH {| data := data st; next_url := next_url st;
                 log := log st ++ [e] |} (ledger_benign st e L He)).
  - destruct (IH {| data := u (data st); next_url := next_url st;
                    log := log st |}) as (H1 & H2 & H3).
    { apply ledger_data. exact L. }
    split; [exact H1|]. split; [|exact H3].
    eapply kept_trans; [apply Hu | exact H2].
  - rewrite Heq. simpl.
    exact (IH (next_url st)
              {| data := data st; next_url := N.succ (next_url st);
                 log := ((log st ++
                          [ObjectURLCreated (next_url st) (OfBlob b)])
                           ++ [e (next_url st)])
                          ++ [RevokeObjectURL (next_url st)] |}
              (ledger_blob st b (e (next_url st)) L (He (next_url st)))).
Qed.

Lemma sound_start : sound start.
Proof. split; [apply ledger_initial | constructor]. Qed.

Lemma Forall_remove_nth {A : Type} (P : A -> Prop) (i : nat) (l : list A) :
  Forall P l -> Forall P (remove_nth i l).
Proof.
  intros H. revert i. induction H as [|x l Hx Hl IH]; intros [|i]; simpl;
    auto.
Qed.

Lemma Forall_replace_nth {A : Type} (P : A -> Prop) (i : nat) (x : A)
  (l : list A) :
  P x -> Forall P l -> Forall P (replace_nth i x l).
Proof.
  intros Hx H. revert i. induction H as [|y l Hy Hl IH]; intros [|i]; simpl;
    auto.
Qed.

Lemma sound_launch (m : async unit) (p : Page) :
  tame m -> sound p ->
  sound (launch m p) /\ kept (data (app p)) (data (app (launch m p))).
Proof.
  intros Hm [L T]. unfold launch.
  destruct (run_tame m Hm (app p) L) as (H1 & H2 & H3).
  destruct (run m (app p)) as [st [a|e|k]]; simpl in *;
    (split; [split; simpl; auto | exact H2]).
  apply Forall_app. split; [exact T|]. constructor; [|constructor].
  apply H3. reflexivity.
Qed.

Lemma sound_resume (i : nat) (p : Page) :
  sound p ->
  sound (resume i p) /\ kept (data (app p)) (data (app (resume i p))).
Proof.
  intros [L T]. unfold resume.
  destruct (nth_error (inflight p) i) as [k|] eqn:Hk.
  - assert (Hm : tame k).
    { rewrite Forall_forall in T. apply T. eapply nth_error_In. exact Hk. }
    destruct (run_tame k Hm (app p) L) as (H1 & H2 & H3).
    destruct (run k (app p)) as [st [a|e|k']]; simpl in *;
      (split; [split; simpl; auto | exact H2]).
    + apply Forall_remove_nth. exact T.
    + apply Forall_remove_nth. exact T.
    + apply Forall_replace_nth; [apply H3; reflexivity | exact T].
  - split; [split; assumption | apply kept_refl].
Qed.

Lemma handleImageSelect_opens (w : World) (f : File) (st : App) :
  run (handleImageSelect w f) st = run (pipeline w f) (opened w f st).
Proof. reflexivity. Qed.

Lemma ledger_opened (w : World) (f : File) (st : App) :
  ledger st -> ledger (opened w f st).
Proof.
  intros L. unfold opened.
  apply (ledger_benign
           {| data := Some (newImage w f (next_url st));
              next_url := N.succ (next_url st);
              log := log st ++ [ObjectURLCreated (next_url st) (OfFile f)] |});
    [|exact I].
  apply (ledger_data
           {| data := data st; next_url := N.succ (next_url st);
              log := log st ++ [ObjectURLCreated (next_url st) (OfFile f)] |}).
  apply ledger_file. exact L.
Qed.

Lemma sound_select (w : World) (f : File) (p : Page) :
  sound p -> sound (launch (handleImageSelect w f) p).
Proof.
  intros [L T]. unfold launch. rewrite handleImageSelect_opens.
  destruct (run_tame (pipeline w f) (tame_pipeline w f)
              (opened w f (app p)) (ledger_opened w f (app p) L))
    as (H1 & H2 & H3).
  destruct (run (pipeline w f) (opened w f (app p))) as [st [a|e|k]];
    simpl in *; split; simpl; auto.
  apply Forall_app. split; [exact T|]. constructor; [|constructor].
  apply H3. reflexivity.
Qed.

Lemma sound_step (p : Page) (e : event) : sound p -> sound (step p e).
Proof.
  intros S. destruct e as [w f| |w|i]; simpl.
  - apply sound_select. exact S.
  - apply sound_launch; [apply tame_handleDiscard | exact S].
  - apply sound_launch; [apply tame_handlePrivacyClean | exact S].
  - apply sound_resume. exact S.
Qed.

Lemma sound_execute (es : list event) :
  forall p, sound p -> sound (execute es p).
Proof.
  induction es as [|e es IH]; intros p S; simpl; [exact S|].
  apply IH. apply sound_step. exact S.
Qed.

(* ================================================================== *)
(** * Overlapping records *)
(* ================================================================== *)

(** From a page with nothing in flight, selecting an image and letting the
    extraction and the encoding finish leaves the invocation suspended at
    the network call. *)
Lemma request_in_flight (w : World) (f : File) (st : App)
  (payload : option string) (ai : GoogleGenAI) :
  encoded w f = Resolved payload ->
  client_of w = Some ai ->
  execute [Select w f; Resume 0; Resume 0] {| app := st; inflight := [] |} =
  {| app :=
       {| data := Some {| id := toString (now w); file := f;
                          previewUrl := next_url st;
                          exif := extracted w f;
                          aiAnalysis := None; isProcessing := true;
                          error := None |};
          next_url := N.succ (next_url st);
          log := (((log st ++ [ObjectURLCreated (next_url st) (OfFile f)])
                     ++ [SetShowCamera false]) ++ extract_log w f)
                   ++ [Request (apiKey ai) payload] |};
     inflight := [awaiting_response w ai payload] |}.
Proof.
  unfold encoded, client_of, extracted, extract_log.
  rewrite extractExifData_run.
  intros He Hc.
  unfold execute, fold_left, step, launch, resume.
  rewrite handleImageSelect_opens. unfold opened, pipeline.
  unfold extractExifData, exifr_parse_async, settle, fileToBase64,
    analyzeImageWithGemini, getAiClient.
  cbn [run bind try_catch app inflight nth_error replace_nth remove_nth
         List.app].
  destruct (exifr_parse w f) as [[output|]|e];
    destruct (readAsDataURL w f) as [[s|]|e'];
    try discriminate; inversion He; subst payload;
    destruct (API_KEY w) as [[|c k]|]; try discriminate;
    inversion Hc; subst ai;
    cbn; rewrite ?app_nil_r; reflexivity.
Qed.

(** When the answer is in, the invocation finishes in one go, and what it
    does to the state is [with_analysis]: nothing in it looks at the id of
    the record it finds. *)
Lemma awaiting_response_run (w : World) (ai : GoogleGenAI)
  (payload : option string) (st : App) :
  client_of w = Some ai ->
  exists es,
    run (awaiting_response w ai payload) st =
    ({| data := with_analysis (analysis_value w payload) (data st);
        next_url := next_url st;
        log := log st ++ es |},
     Finished tt).
Proof.
  intros Hc. unfold awaiting_response, analysis_value, analysis_fault,
    service_answer. rewrite Hc.
  destruct (generateContent w ai payload) as [response|e]; cbn.
  - unfold read_response.
    destruct (text response) as [[|c t]|]; cbn;
      try (eexists; reflexivity).
    destruct (parse (String c t)); cbn.
    + exists []. rewrite app_nil_r. reflexivity.
    + eexists; reflexivity.
  - eexists; reflexivity.
Qed.

(** C1, as stated, fails: record B is started while A's analysis call is in
    flight; when A's answer (one object, "cat") arrives it is merged into
    B's record, whose id differs from A's, and B is marked as processed
    while B's own request has not even been sent. *)
Lemma stale_result_merged_into_newer_record :
  option_map id (data (app Overlap.before_arrival)) = Some "1700000000500" /\
  option_map aiAnalysis (data (app Overlap.before_arrival)) = Some None /\
  List.length (inflight Overlap.before_arrival) = 2%nat /\
  exists r,
    data (app (execute Overlap.schedule start)) = Some r /\
    id r = "1700000000500" /\
    id r <> id (newImage Sample.worldA Sample.fileA 0%N) /\
    file r = Sample.fileB /\
    aiAnalysis r = Some Sample.resultA /\
    isProcessing r = false /\
    filter is_request (log (app (execute Overlap.schedule start)))
      = [Request "key" (Some "/9j/4AAQ")].
Proof.
  split; [reflexivity|]. split; [reflexivity|]. split; [reflexivity|].
  eexists. split; [reflexivity|].
  repeat split; try reflexivity. discriminate.
Qed.

(** C1, amended. When the answer to A's analysis call arrives, its value is
    merged into whichever record is active at that moment, with no
    comparison of ids: if a record B was started in the meantime, B's record
    takes A's result and is marked as processed; the result is dropped only
    when no record is active (the record was discarded and none was
    started). *)
Theorem analysis_result_merged_into_active_record
  (w : World) (ai : GoogleGenAI) (payload : option string)
  (p : Page) (i : nat) :
  client_of w = Some ai ->
  nth_error (inflight p) i = Some (awaiting_response w ai payload) ->
  data (app (resume i p)) =
    match data (app p) with
    | Some r =>
        Some {| id := id r; file := file r; previewUrl := previewUrl r;
                exif := exif r;
                aiAnalysis := nullable (analysis_value w payload);
                isProcessing := false; error := error r |}
    | None => None
    end /\
  inflight (resume i p) = remove_nth i (inflight p).
Proof.
  intros Hc Hk. unfold resume. rewrite Hk.
  destruct (awaiting_response_run w ai payload (app p) Hc) as [es Hrun].
  rewrite Hrun. cbn [app data inflight]. split; reflexivity.
Qed.

Lemma analysis_result_merged_into_active_record_witness :
  client_of Sample.worldA = Some {| apiKey := "key" |} /\
  nth_error (inflight Overlap.before_arrival) 0
    = Some (awaiting_response Sample.worldA {| apiKey := "key" |}
              (Some "/9j/4AAQ")) /\
  data (app (resume 0 Overlap.before_arrival)) =
    Some {| id := "1700000000500"; file := Sample.fileB; previewUrl := 1%N;
            exif := None; aiAnalysis := Some Sample.resultA;
            isProcessing := false; error := None |}.
Proof.
  split; [reflexivity|]. split; [reflexivity|].
  exact (proj1 (analysis_result_merged_into_active_record
                  Sample.worldA {| apiKey := "key" |} (Some "/9j/4AAQ")
                  Overlap.before_arrival 0 eq_refl eq_refl)).
Defined.

(* ================================================================== *)
(** * Preview URLs *)
(* ================================================================== *)

Lemma run_log_grows {A : Type} (m : async A) :
  forall st e, In e (log st) -> In e (log (fst (run m st))).
Proof.
  induction m as [a | x | k IH | x k IH | u k IH | src k IH];
    intros st e Hin; simpl; auto.
  - apply IH. simpl. apply in_or_app. left. exact Hin.
  - apply IH. simpl. apply in_or_app. left. exact Hin.
Qed.

Lemma registered_run {A : Type} (m : async A) (st : App) :
  tame m -> ledger st -> registered st -> registered (fst (run m st)).
Proof.
  intros Hm L R r Hr.
  destruct (run_tame m Hm st L) as (_ & Hkept & _).
  rewrite Hr in Hkept. destruct (data st) as [r0|] eqn:Hd;
    simpl in Hkept; [|contradiction].
  destruct Hkept as (_ & Hu & Hf). rewrite Hu, Hf.
  apply run_log_grows. apply R. exact Hd.
Qed.

Lemma registered_opened (w : World) (f : File) (st : App) :
  registered (opened w f st).
Proof.
  intros r Hr. unfold opened in *. simpl in *. inversion Hr; subst r. simpl.
  apply in_or_app. left. apply in_or_app. right. left. reflexivity.
Qed.

Lemma registered_step (p : Page) (e : event) :
  sound p -> registered (app p) -> registered (app (step p e)).
Proof.
  intros [L T] R. destruct e as [w f| |w|i]; cbn [step].
  - unfold launch. rewrite handleImageSelect_opens.
    pose proof (registered_run (pipeline w f) (opened w f (app p))
                  (tame_pipeline w f) (ledger_opened w f (app p) L)
                  (registered_opened w f (app p))) as H.
    destruct (run (pipeline w f) (opened w f (app p))) as [st [a|x|k]];
      exact H.
  - unfold launch.
    pose proof (registered_run handleDiscard (app p) tame_handleDiscard L R)
      as H.
    destruct (run handleDiscard (app p)) as [st [a|x|k]]; exact H.
  - unfold launch.
    pose proof (registered_run (handlePrivacyClean w (data (app p))) (app p)
                  (tame_handlePrivacyClean w (data (app p))) L R) as H.
    destruct (run (handlePrivacyClean w (data (app p))) (app p))
      as [st [a|x|k]]; exact H.
  - unfold resume. destruct (nth_error (inflight p) i) as [k|] eqn:Hk;
      [|exact R].
    assert (Hm : tame k).
    { rewrite Forall_forall in T. apply T. eapply nth_error_In. exact Hk. }
    pose proof (registered_run k (app p) Hm L R) as H.
    destruct (run k (app p)) as [st [a|x|k']]; exact H.
Qed.

Lemma registered_execute (es : list event) :
  forall p, sound p -> registered (app p) ->
            registered (app (execute es p)).
Proof.
  induction es as [|e es IH]; intros p S R; simpl; [exact R|].
  apply IH; [apply sound_step; exact S | apply registered_step; assumption].
Qed.

(** C5, as stated, fails: record A is superseded by record B and record B is
    discarded, and neither preview URL has been released: each is released
    zero times, not once. *)
Lemma preview_urls_left_unreleased :
  let st := app (execute Superseded.schedule start) in
  data st = None /\
  In (ObjectURLCreated 0%N (OfFile Sample.fileA)) (log st) /\
  In (ObjectURLCreated 1%N (OfFile Sample.fileB)) (log st) /\
  count_revoked 0%N (log st) = 0%nat /\
  count_revoked 1%N (log st) = 0%nat.
Proof.
  cbv zeta. split; [reflexivity|].
  split; [vm_compute; auto|]. split; [vm_compute; auto 6|].
  split; reflexivity.
Qed.

(** C5, amended. In every execution of the page, the preview URL of a record
    (the object URL made for its file, which is the one the active record
    carries) is never released, whether the record is still active, was
    superseded or was discarded.  The only object URL that is released is
    the one the clean-copy handler makes for its download, and that one is
    released exactly once. *)
Theorem preview_url_never_released (es : list event) :
  let st := app (execute es start) in
  (forall r, data st = Some r ->
     In (ObjectURLCreated (previewUrl r) (OfFile (file r))) (log st)) /\
  (forall u f, In (ObjectURLCreated u (OfFile f)) (log st) ->
     count_revoked u (log st) = 0%nat) /\
  (forall u b, In (ObjectURLCreated u (OfBlob b)) (log st) ->
     count_revoked u (log st) = 1%nat).
Proof.
  cbv zeta.
  pose proof (sound_execute es start sound_start) as [L _].
  split; [|split].
  - apply registered_execute; [apply sound_start|].
    intros r Hr. discriminate.
  - apply (previews_kept _ L).
  - apply (downloads_released _ L).
Qed.

(* ================================================================== *)
(** * Record ids *)
(* ================================================================== *)

Lemma toString_injective (n m : N) : toString n = toString m -> n = m.
Proof.
  unfold toString. intros H.
  assert (Hu : N.to_uint n = N.to_uint m).
  { pose proof (NilEmpty.usu (N.to_uint n)) as Hn.
    pose proof (NilEmpty.usu (N.to_uint m)) as Hm.
    rewrite H in Hn. congruence. }
  rewrite <- (DecimalN.Unsigned.of_to n), <- (DecimalN.Unsigned.of_to m).
  rewrite Hu. reflexivity.
Qed.

(** Selecting an image installs the new record before anything else runs. *)
Lemma select_installs (w : World) (f : File) (p : Page) :
  data (app (step p (Select w f)))
  = Some (newImage w f (next_url (app p))).
Proof. reflexivity. Qed.

(** C9, as stated, fails: two distinct creations (different files, different
    preview URLs) at the same clock reading are given the same id. *)
Lemma same_tick_same_id :
  exists rA rB,
    data (app (execute [Select SameTick.first Sample.fileA] start)) = Some rA /\
    data (app (execute SameTick.schedule start)) = Some rB /\
    file rA <> file rB /\
    previewUrl rA <> previewUrl rB /\
    id rA = id rB.
Proof.
  eexists. eexists. split; [reflexivity|]. split; [reflexivity|].
  split; [discriminate|]. split; [discriminate|]. reflexivity.
Qed.

(** C9, amended. The id of a record is the decimal text of the clock reading
    at its creation, so two creations get distinct ids exactly when their
    clock readings differ.  Once assigned, the id never changes: in every
    execution, a step that leaves a record active either is a new selection
    (and the record is the new one) or leaves the id, the file and the
    preview URL of the active record as they were; no step other than a
    selection makes a record active. *)
Theorem id_from_clock_and_stable :
  (forall w1 f1 u1 w2 f2 u2,
     id (newImage w1 f1 u1) = id (newImage w2 f2 u2) <-> now w1 = now w2) /\
  (forall es e,
     let p := execute es start in
     match e with
     | Select w f =>
         data (app (step p e)) = Some (newImage w f (next_url (app p)))
     | _ => kept (data (app p)) (data (app (step p e)))
     end).
Proof.
  split.
  - intros w1 f1 u1 w2 f2 u2. simpl. split.
    + apply toString_injective.
    + intros H. rewrite H. reflexivity.
  - intros es e. cbv zeta.
    pose proof (sound_execute es start sound_start) as S.
    destruct e as [w f| |w|i].
    + apply select_installs.
    + apply sound_launch; [apply tame_handleDiscard | exact S].
    + apply sound_launch; [apply tame_handlePrivacyClean | exact S].
    + apply sound_resume. exact S.
Qed.

(* ================================================================== *)
(** * Running alone, on the page *)
(* ================================================================== *)

Lemma awaits_le_mono {A : Type} (m : async A) (n : nat) :
  awaits_le n m -> forall n', (n <= n')%nat -> awaits_le n' m.
Proof.
  induction 1 as [n a | n e | n k Hk IH | n e k Hk IH | n u k Hk IH
                 | n src k Hk IH]; intros n' Hle; try constructor; auto.
  destruct n' as [|n']; [lia|]. constructor. apply IH. lia.
Qed.

Lemma awaits_le_bind {A B : Type} (m : async A) (f : A -> async B)
  (n k : nat) :
  awaits_le n m -> (forall a, awaits_le k (f a)) ->
  awaits_le (n + k) (bind m f).
Proof.
  intros Hm Hf.
  induction Hm as [n a | n e | n j Hj IH | n e j Hj IH | n u j Hj IH
                  | n src j Hj IH]; simpl; try (constructor; auto).
  apply awaits_le_mono with (n := k); [apply Hf | lia].
Qed.

Lemma awaits_le_try_catch {A : Type} (m : async A) (h : exn -> async A)
  (n k : nat) :
  awaits_le n m -> (forall e, awaits_le k (h e)) ->
  awaits_le (n + k) (try_catch m h).
Proof.
  intros Hm Hh.
  induction Hm as [n a | n e | n j Hj IH | n e j Hj IH | n u j Hj IH
                  | n src j Hj IH]; simpl; try (constructor; auto).
  apply awaits_le_mono with (n := k); [apply Hh | lia].
Qed.

Lemma awaits_le_settle {A : Type} (o : outcome A) : awaits_le 1 (settle o).
Proof. unfold settle. constructor. destruct o; constructor. Qed.

Lemma awaits_le_extractExifData (w : World) (f : File) :
  awaits_le 1 (extractExifData w f).
Proof.
  unfold extractExifData, exifr_parse_async.
  apply (awaits_le_try_catch _ _ 1 0).
  - apply (awaits_le_bind _ _ 1 0); [apply awaits_le_settle|].
    intros [output|]; constructor.
  - intros e. repeat constructor.
Qed.

Lemma awaits_le_fileToBase64 (w : World) (f : File) :
  awaits_le 1 (fileToBase64 w f).
Proof.
  unfold fileToBase64. constructor.
  destruct (readAsDataURL w f) as [[s|]|e]; constructor.
Qed.

Lemma awaits_le_analyzeImageWithGemini (w : World) (b : option string) :
  awaits_le 1 (analyzeImageWithGemini w b).
Proof.
  unfold analyzeImageWithGemini.
  apply (awaits_le_try_catch _ _ 1 0).
  - apply (awaits_le_bind _ _ 0 1).
    + unfold getAiClient.
      destruct (truthy_string (API_KEY w)); [|constructor].
      destruct (API_KEY w); constructor.
    + intros ai. apply (awaits_le_bind _ _ 0 1); [repeat constructor|].
      intros _. apply (awaits_le_bind _ _ 1 0); [apply awaits_le_settle|].
      intros response. unfold read_response.
      destruct (truthy_string (text response)); [|constructor].
      destruct (text response) as [t|]; [|constructor].
      destruct (parse t); constructor.
  - intros e. repeat constructor.
Qed.

Lemma awaits_le_pipeline (w : World) (f : File) :
  awaits_le 3 (pipeline w f).
Proof.
  unfold pipeline. apply (awaits_le_try_catch _ _ 3 0).
  - apply (awaits_le_bind _ _ 1 2); [apply awaits_le_extractExifData|].
    intros exifData.
    apply (awaits_le_bind _ _ 0 2); [repeat constructor|].
    intros _. apply (awaits_le_bind _ _ 1 1); [apply awaits_le_fileToBase64|].
    intros base64.
    apply (awaits_le_bind _ _ 1 0); [apply awaits_le_analyzeImageWithGemini|].
    intros aiResult. repeat constructor.
  - intros err. repeat constructor.
Qed.

Lemma nth_error_last {A : Type} (l : list A) (x : A) :
  nth_error (l ++ [x]) (List.length l) = Some x.
Proof. induction l as [|h t IH]; simpl; auto. Qed.

Lemma replace_nth_last {A : Type} (l : list A) (x y : A) :
  replace_nth (List.length l) y (l ++ [x]) = l ++ [y].
Proof. induction l as [|h t IH]; simpl; [reflexivity|]. rewrite IH. reflexivity. Qed.

Lemma remove_nth_last {A : Type} (l : list A) (x : A) :
  remove_nth (List.length l) (l ++ [x]) = l.
Proof. induction l as [|h t IH]; simpl; [reflexivity|]. rewrite IH. reflexivity. Qed.

Lemma resume_beyond (l : list (async unit)) (st : App) :
  resume (List.length l) {| app := st; inflight := l |}
  = {| app := st; inflight := l |}.
Proof.
  unfold resume. simpl.
  assert (H : nth_error l (List.length l) = None).
  { apply nth_error_None. lia. }
  rewrite H. reflexivity.
Qed.

Lemma execute_resume_beyond (n : nat) (l : list (async unit)) (st : App) :
  execute (repeat (Resume (List.length l)) n) {| app := st; inflight := l |}
  = {| app := st; inflight := l |}.
Proof.
  induction n as [|n IH]; simpl; [reflexivity|].
  rewrite resume_beyond. exact IH.
Qed.

(** Enough resumptions take an invocation that was started last to its end,
    and to the state [run_alone] computes, whatever else is suspended on the
    page, as long as nothing else is scheduled in between. *)
Lemma uninterrupted (m : async unit) (n : nat) :
  awaits_le n m ->
  forall (l : list (async unit)) (st : App),
    execute (repeat (Resume (List.length l)) n)
      (launch m {| app := st; inflight := l |})
    = {| app := fst (run_alone m st); inflight := l |}.
Proof.
  intros Hm.
  induction Hm as [n a | n e | n k Hk IH | n e k Hk IH | n u k Hk IH
                  | n src k Hk IH]; intros l st.
  - unfold launch. simpl. apply execute_resume_beyond.
  - unfold launch. simpl. apply execute_resume_beyond.
  - unfold launch. cbn [run app inflight repeat execute fold_left step].
    specialize (IH l st). unfold launch in IH. cbn [app inflight] in IH.
    unfold resume. cbn [app inflight]. rewrite nth_error_last.
    simpl run_alone.
    destruct (run k st) as [st' [a|e|k']];
      rewrite ?replace_nth_last, ?remove_nth_last; exact IH.
  - exact (IH l {| data := data st; next_url := next_url st;
                   log := log st ++ [e] |}).
  - exact (IH l {| data := u (data st); next_url := next_url st;
                   log := log st |}).
  - exact (IH (next_url st) l
              {| data := data st; next_url := N.succ (next_url st);
                 log := log st ++ [ObjectURLCreated (next_url st) src] |}).
Qed.

(** A record that is processed without anything scheduled in between goes
    through its three suspension points (parser, reader, service) to the
    state that [run_alone] computes, whatever the page held before. *)
Lemma record_uninterrupted (w : World) (f : File) (p : Page) :
  execute (Select w f :: repeat (Resume (List.length (inflight p))) 3) p
  = {| app := fst (run_alone (handleImageSelect w f) (app p));
       inflight := inflight p |}.
Proof.
  destruct p as [st l]. cbn [app inflight].
  change (execute (Select w f :: ?es) ?q)
    with (execute es (launch (handleImageSelect w f) q)).
  apply uninterrupted.
  rewrite handleImageSelect_pipeline.
  apply awaits_url. intros u. apply awaits_set, awaits_do.
  apply awaits_le_pipeline.
Qed.

(* ================================================================== *)
(** * The encoder *)
(* ================================================================== *)

Lemma split_no_comma (s : string) :
  no_comma s = true -> split "," s = [s].
Proof.
  induction s as [|c s IH]; simpl; [reflexivity|].
  destruct (Ascii.eqb c ","); simpl; [discriminate|].
  intros H. rewrite (IH H). reflexivity.
Qed.

Lemma split_at_comma (p rest : string) :
  no_comma p = true ->
  split "," (p ++ String "," rest) = p :: split "," rest.
Proof.
  induction p as [|c p IH]; simpl; [reflexivity|].
  destruct (Ascii.eqb c ","); simpl; [discriminate|].
  intros H. rewrite (IH H). reflexivity.
Qed.

Lemma split_head (s : string) :
  exists tl, split "," s = up_to_comma s :: tl.
Proof.
  induction s as [|c s [tl IH]]; simpl; [eexists; reflexivity|].
  destruct (Ascii.eqb c ","); [eexists; reflexivity|].
  rewrite IH. eexists; reflexivity.
Qed.

(** The payload of [fileToBase64] is what stands between the first and the
    second comma of the reader's text: the data-URL prefix (which has no
    comma) is removed, and so is anything from a second comma on.  For a
    payload without a comma, as base64 text is, the payload is returned
    whole. *)
Theorem fileToBase64_strips_prefix (w : World) (f : File) (st : App)
  (prefix payload : string) :
  readAsDataURL w f = OnLoad (ResultString (prefix ++ "," ++ payload)) ->
  no_comma prefix = true ->
  run_alone (fileToBase64 w f) st = (st, Resolved (Some (up_to_comma payload)))
  /\ (no_comma payload = true ->
      run_alone (fileToBase64 w f) st = (st, Resolved (Some payload))).
Proof.
  intros Hr Hp. rewrite fileToBase64_run. unfold encoded. rewrite Hr.
  change ("," ++ payload)%string with (String "," payload).
  rewrite (split_at_comma prefix payload Hp). simpl.
  split.
  - destruct (split_head payload) as [tl Htl]. rewrite Htl. reflexivity.
  - intros Hpl. rewrite (split_no_comma payload Hpl). reflexivity.
Qed.

Lemma fileToBase64_strips_prefix_witness :
  readAsDataURL Sample.worldA Sample.fileA
    = OnLoad (ResultString ("data:image/jpeg;base64" ++ "," ++ "/9j/4AAQ")) /\
  no_comma "data:image/jpeg;base64" = true /\
  run_alone (fileToBase64 Sample.worldA Sample.fileA) initial
    = (initial, Resolved (Some "/9j/4AAQ")).
Proof.
  split; [reflexivity|]. split; [reflexivity|].
  exact (proj1 (fileToBase64_strips_prefix Sample.worldA Sample.fileA initial
                  "data:image/jpeg;base64" "/9j/4AAQ" eq_refl eq_refl)).
Defined.



(* ================================================================== *)
(** * More on the clean copy *)
(* ================================================================== *)

(** [cleanImageMetadata] touches nothing on the page.  It rejects exactly
    when the image fails to load or no drawing context is to be had; in every
    other case it resolves with what [toBlob] hands over for a surface of
    the image's own width and height, in the requested format, at quality
    0.95, be that bytes or nothing. *)
Theorem cleanImageMetadata_outcomes (w : World) (imageUrl : url)
  (format : string) (st : App) :
  fst (run_alone (cleanImageMetadata w imageUrl format) st) = st /\
  ((exists e,
      snd (run_alone (cleanImageMetadata w imageUrl format) st) = Rejected e)
   <-> ((exists e, loadImage w imageUrl = ImageError e) \/
        ((exists iw ih, loadImage w imageUrl = ImageLoaded iw ih) /\
         getContext2d w = false))) /\
  (forall iw ih,
     loadImage w imageUrl = ImageLoaded iw ih -> getContext2d w = true ->
     snd (run_alone (cleanImageMetadata w imageUrl format) st)
       = Resolved (toBlob w iw ih format (95 # 100))).
Proof.
  rewrite cleanImageMetadata_run. cbn [fst snd]. unfold cleaned.
  split; [reflexivity|]. split.
  - destruct (loadImage w imageUrl) as [iw ih|err].
    + destruct (getContext2d w).
      * split.
        -- intros [e He]. discriminate.
        -- intros [[e He]|[_ Hc]]; discriminate.
      * split; [|eauto]. intros _. right. split; [eauto|reflexivity].
    + split; [|eauto]. intros _. left. eauto.
  - intros iw ih Hl Hc. rewrite Hl, Hc. reflexivity.
Qed.

(** When the clean copy has bytes, the handler offers exactly one download,
    named [clean_] followed by the name of the record's file, under a new
    object URL that it releases right after the click; the record is left as
    it was and no alert is raised. *)
Theorem clean_copy_downloaded_once (w : World) (d : ProcessedImage)
  (st : App) (iw ih : N) (b : Blob) :
  loadImage w (previewUrl d) = ImageLoaded iw ih ->
  getContext2d w = true ->
  toBlob w iw ih "image/jpeg" (95 # 100) = Some b ->
  data (fst (run_alone (handlePrivacyClean w (Some d)) st)) = data st /\
  emitted (handlePrivacyClean w (Some d)) st =
    [ObjectURLCreated (next_url st) (OfBlob b);
     ClickDownload ("clean_" ++ name (file d)) (next_url st);
     RevokeObjectURL (next_url st)].
Proof.
  intros Hl Hc Hb. unfold emitted. rewrite handlePrivacyClean_run.
  unfold cleaned, default_format. rewrite Hl, Hc, Hb. cbn [fst data log].
  split; [reflexivity|]. apply skipn_own_length.
Qed.

Lemma clean_copy_downloaded_once_witness :
  loadImage Sample.worldA (previewUrl Encoded.record) = ImageLoaded 640 480 /\
  getContext2d Sample.worldA = true /\
  toBlob Sample.worldA 640 480 "image/jpeg" (95 # 100)
    = Some {| blob_type := "image/jpeg"; blob_size := 1000 |} /\
  emitted (handlePrivacyClean Sample.worldA (Some Encoded.record)) NoBytes.st =
    [ObjectURLCreated 1%N
       (OfBlob {| blob_type := "image/jpeg"; blob_size := 1000 |});
     ClickDownload "clean_a.jpg" 1%N;
     RevokeObjectURL 1%N].
Proof.
  split; [reflexivity|]. split; [reflexivity|]. split; [reflexivity|].
  exact (proj2 (clean_copy_downloaded_once Sample.worldA Encoded.record
                  NoBytes.st 640 480
                  {| blob_type := "image/jpeg"; blob_size := 1000 |}
                  eq_refl eq_refl eq_refl)).
Defined.

(** Whatever the platform does, the clean-copy handler leaves the record as
    it is, sends nothing to the analysis service, and ends in at most one of
    two ways: a download or an alert, never both. *)
Theorem handlePrivacyClean_is_separate (w : World)
  (d : option ProcessedImage) (st : App) :
  data (fst (run_alone (handlePrivacyClean w d) st)) = data st /\
  filter is_request (emitted (handlePrivacyClean w d) st) = [] /\
  (List.length (filter is_download (emitted (handlePrivacyClean w d) st))
   + List.length (filter is_alert (emitted (handlePrivacyClean w d) st))
   <= 1)%nat.
Proof.
  unfold emitted. destruct d as [d|].
  - rewrite handlePrivacyClean_run.
    destruct (cleaned w (previewUrl d) default_format) as [[b|]|e];
      cbn [fst data log add_log];
      rewrite ?skipn_own_length, ?skipn_all; simpl; auto.
  - simpl. rewrite skipn_all. simpl. auto.
Qed.

(* ================================================================== *)
(** * More on one selection *)
(* ================================================================== *)


(** One selection sends at most one request, and none is repeated after a
    failure: exactly one goes out when the encoder succeeds and a key is
    configured, carrying that key and the encoder's payload; none goes out
    when the encoder fails or the key is missing. *)
Theorem one_request_per_selection (w : World) (f : File) (st : App) :
  filter is_request (emitted (handleImageSelect w f) st) =
  match encoded w f, client_of w with
  | Resolved payload, Some ai => [Request (apiKey ai) payload]
  | _, _ => []
  end.
Proof.
  unfold emitted. rewrite handleImageSelect_run.
  assert (Hx : filter is_request (extract_log w f) = []).
  { unfold extract_log. destruct (exifr_parse w f); reflexivity. }
  destruct (encoded w f) as [payload|e]; cbn [fst log];
    rewrite skipn_own_length, !filter_app, Hx; simpl.
  - unfold analysis_log, sent. rewrite filter_app.
    destruct (client_of w) as [ai|];
      destruct (analysis_fault w payload); reflexivity.
  - reflexivity.
Qed.

(* ================================================================== *)
(** * What every reachable record looks like *)
(* ================================================================== *)

Lemma careful_bind {A B : Type} (m : async A) (f : A -> async B) :
  careful m -> (forall a, careful (f a)) -> careful (bind m f).
Proof.
  intros Hm Hf.
  induction Hm as [a | e | k Hk IH | e k Hk IH | u k Hu Hk IH
                  | src k Hk IH]; simpl; auto; constructor; auto.
Qed.

Lemma careful_try_catch {A : Type} (m : async A) (h : exn -> async A) :
  careful m -> (forall e, careful (h e)) -> careful (try_catch m h).
Proof.
  intros Hm Hh.
  induction Hm as [a | e | k Hk IH | e k Hk IH | u k Hu Hk IH
                  | src k Hk IH]; simpl; auto; constructor; auto.
Qed.

Lemma careful_settle {A : Type} (o : outcome A) : careful (settle o).
Proof. unfold settle. constructor. destruct o; constructor. Qed.

Lemma careful_perform (e : effect) : careful (perform e).
Proof. repeat constructor. Qed.

Lemma careful_setData u : preserves u -> careful (setData u).
Proof. intros Hu. unfold setData. constructor; [exact Hu | constructor]. Qed.

Lemma preserves_with_exif x : preserves (with_exif x).
Proof. intros [r|]; simpl; auto. Qed.

Lemma preserves_with_analysis v : preserves (with_analysis v).
Proof.
  intros [r|]; simpl; auto. intros (_ & He & Hid).
  split; [discriminate|]. split; assumption.
Qed.

Lemma preserves_with_error : preserves with_error.
Proof.
  intros [r|]; simpl; auto. intros (_ & _ & Hid).
  split; [discriminate|]. split; [right; reflexivity | exact Hid].
Qed.

Lemma preserves_newImage (w : World) (f : File) (u : url) :
  preserves (fun _ => Some (newImage w f u)).
Proof.
  intros d _. simpl. split; [auto|]. split; [left; reflexivity|].
  exists (now w). reflexivity.
Qed.

Lemma careful_extractExifData (w : World) (f : File) :
  careful (extractExifData w f).
Proof.
  unfold extractExifData, exifr_parse_async.
  apply careful_try_catch.
  - apply careful_bind; [apply careful_settle|].
    intros [output|]; constructor.
  - intros e. apply careful_bind; [apply careful_perform|].
    intros _. constructor.
Qed.

Lemma careful_fileToBase64 (w : World) (f : File) :
  careful (fileToBase64 w f).
Proof.
  unfold fileToBase64. constructor.
  destruct (readAsDataURL w f) as [[s|]|e]; constructor.
Qed.

Lemma careful_analyzeImageWithGemini (w : World) (b : option string) :
  careful (analyzeImageWithGemini w b).
Proof.
  unfold analyzeImageWithGemini.
  apply careful_try_catch.
  - apply careful_bind.
    + unfold getAiClient.
      destruct (truthy_string (API_KEY w)); [|constructor].
      destruct (API_KEY w); constructor.
    + intros ai. apply careful_bind; [apply careful_perform|].
      intros _. apply careful_bind; [apply careful_settle|].
      intros response. unfold read_response.
      destruct (truthy_string (text response)); [|constructor].
      destruct (text response) as [t|]; [|constructor].
      destruct (parse t); constructor.
  - intros e. apply careful_bind; [apply careful_perform|].
    intros _. constructor.
Qed.

Lemma careful_handleImageSelect (w : World) (f : File) :
  careful (handleImageSelect w f).
Proof.
  rewrite handleImageSelect_pipeline. constructor. intros u.
  constructor; [apply preserves_newImage|]. constructor.
  unfold pipeline. apply careful_try_catch.
  - apply careful_bind; [apply careful_extractExifData|].
    intros exifData.
    apply careful_bind; [apply careful_setData, preserves_with_exif|].
    intros _. apply careful_bind; [apply careful_fileToBase64|].
    intros base64.
    apply careful_bind; [apply careful_analyzeImageWithGemini|].
    intros aiResult. apply careful_setData, preserves_with_analysis.
  - intros err. apply careful_bind; [apply careful_perform|].
    intros _. apply careful_setData, preserves_with_error.
Qed.

Lemma careful_handleDiscard : careful handleDiscard.
Proof. apply careful_setData. intros d _. exact I. Qed.

Lemma careful_handlePrivacyClean (w : World) (d : option ProcessedImage) :
  careful (handlePrivacyClean w d).
Proof.
  destruct d as [d|]; unfold handlePrivacyClean; [|constructor].
  apply careful_try_catch.
  - apply careful_bind.
    + unfold cleanImageMetadata. constructor.
      destruct (loadImage w (previewUrl d)); [|constructor].
      destruct (getContext2d w); repeat constructor.
    + intros [b|]; [|constructor]. constructor. intros u.
      apply careful_bind; [apply careful_perform|].
      intros _. apply careful_perform.
  - intros e. apply careful_perform.
Qed.

Lemma run_careful {A : Type} (m : async A) :
  careful m ->
  forall st, consistent (data st) ->
    consistent (data (fst (run m st))) /\
    (forall k, snd (run m st) = Suspended k -> careful k).
Proof.
  intros Hm.
  induction Hm as [a | e | k Hk IH | e k Hk IH | u k Hu Hk IH
                  | src k Hk IH]; intros st C; simpl.
  - split; [exact C | discriminate].
  - split; [exact C | discriminate].
  - split; [exact C|]. intros k0 H. inversion H; subst. exact Hk.
  - exact (IH {| data := data st; next_url := next_url st;
                 log := log st ++ [e] |} C).
  - exact (IH {| data := u (data st); next_url := next_url st;
                 log := log st |} (Hu (data st) C)).
  - exact (IH (next_url st)
              {| data := data st; next_url := N.succ (next_url st);
                 log := log st ++ [ObjectURLCreated (next_url st) src] |} C).
Qed.

Lemma consistent_launch (m : async unit) (p : Page) :
  careful m ->
  consistent (data (app p)) -> Forall careful (inflight p) ->
  consistent (data (app (launch m p))) /\ Forall careful (inflight (launch m p)).
Proof.
  intros Hm C T. unfold launch.
  destruct (run_careful m Hm (app p) C) as (H1 & H2).
  destruct (run m (app p)) as [st [a|e|k]]; simpl in *;
    (split; [exact H1|]); auto.
  apply Forall_app. split; [exact T|]. constructor; [|constructor].
  apply H2. reflexivity.
Qed.

Lemma consistent_step (p : Page) (e : event) :
  consistent (data (app p)) -> Forall careful (inflight p) ->
  consistent (data (app (step p e))) /\ Forall careful (inflight (step p e)).
Proof.
  intros C T. destruct e as [w f| |w|i]; cbn [step].
  - apply consistent_launch; auto. apply careful_handleImageSelect.
  - apply consistent_launch; auto. apply careful_handleDiscard.
  - apply consistent_launch; auto. apply careful_handlePrivacyClean.
  - unfold resume. destruct (nth_error (inflight p) i) as [k|] eqn:Hk;
      [|split; assumption].
    assert (Hm : careful k).
    { rewrite Forall_forall in T. apply T. eapply nth_error_In. exact Hk. }
    destruct (run_careful k Hm (app p) C) as (H1 & H2).
    destruct (run k (app p)) as [st [a|x|k']]; simpl in *;
      (split; [exact H1|]).
    + apply Forall_remove_nth. exact T.
    + apply Forall_remove_nth. exact T.
    + apply Forall_replace_nth; [apply H2; reflexivity | exact T].
Qed.

(** In every execution of the page, whatever is selected, discarded, cleaned
    or resumed and in whatever order, the active record is consistent: as
    long as it is marked as processing it carries neither an analysis nor an
    error; its error, once there is one, is the fixed notice; and its id is
    the decimal text of a clock reading. *)
Theorem active_record_consistent (es : list event) :
  consistent (data (app (execute es start))).
Proof.
  assert (H : forall p,
             consistent (data (app p)) -> Forall careful (inflight p) ->
             consistent (data (app (execute es p)))).
  { induction es as [|e es IH]; intros p C T; simpl; [exact C|].
    destruct (consistent_step p e C T) as [C' T']. apply IH; assumption. }
  apply H; [exact I | constructor].
Qed.

(* ================================================================== *)
(** * Drop and file input *)
(* ================================================================== *)

Lemma launch_ret (p : Page) : launch (Ret tt) p = p.
Proof. destruct p as [[d n l] k]. reflexivity. Qed.

(** A drop and a change of the file input both start a record for the first
    file they carry and for no other: the page after them is the page after
    a selection of that file.  A drop without a file prevents the browser's
    default action and leaves the page as it is.  A change of the input with
    an empty list also leaves the page as it is, but as a failed call: the
    handler is entered without a file and throws on its first line. *)
Theorem first_file_only (w : World) (p : Page) :
  (forall f rest,
     launch (work (handleDrop w (Some (f :: rest)))) p = step p (Select w f) /\
     launch (handleFileInput w (Some (f :: rest))) p = step p (Select w f)) /\
  (forall files, defaultPrevented (handleDrop w files) = true) /\
  launch (work (handleDrop w None)) p = p /\
  launch (work (handleDrop w (Some []))) p = p /\
  launch (handleFileInput w None) p = p /\
  launch (handleFileInput w (Some [])) p = p /\
  run (handleFileInput w (Some [])) (app p) = (app p, Failed no_file) /\
  run (work (handleDrop w (Some []))) (app p) = (app p, Finished tt).
Proof.
  split; [intros f rest; split; reflexivity|].
  split; [reflexivity|].
  repeat split; apply launch_ret.
Qed.

(* ================================================================== *)
(** * What the tabs show *)
(* ================================================================== *)

Module RenderFacts.
Import Render.

Lemma is_string_inv (v : option json) :
  is_string v = true -> exists s, v = Some (JStr s).
Proof. destruct v as [[]|]; try discriminate. eauto. Qed.

Lemma is_number_inv (v : option json) :
  is_number v = true -> exists n, v = Some (JNum n).
Proof. destruct v as [[]|]; try discriminate. eauto. Qed.

Lemma is_boolean_inv (v : option json) :
  is_boolean v = true -> exists b, v = Some (JBool b).
Proof. destruct v as [[]|]; try discriminate. eauto. Qed.

Lemma one_of_inv (choices : list string) (v : option json) :
  one_of choices v = true -> exists s, v = Some (JStr s).
Proof. destruct v as [[]|]; try discriminate. eauto. Qed.

Lemma is_string_array_inv (v : option json) :
  is_string_array v = true ->
  exists items, v = Some (JArr items) /\
                forallb (fun x => is_string (Some x)) items = true.
Proof. destruct v as [[]|]; try discriminate. eauto. Qed.

Lemma map_items_id (items : list json) :
  map_items (Some (JArr items)) (fun c => Resolved c) = Resolved items.
Proof.
  unfold map_items. induction items as [|x l IH]; [reflexivity|].
  rewrite IH. reflexivity.
Qed.

Lemma nodes_string (d : Display) (s : string) :
  exists t, nodes d (JStr s) = Resolved t.
Proof. destruct s; simpl; eauto. Qed.

Lemma all_nodes_strings (d : Display) (items : list json) :
  forallb (fun x => is_string (Some x)) items = true ->
  exists l, all_nodes d items = Resolved l.
Proof.
  induction items as [|x l IH]; simpl; [eauto|].
  intros H. apply andb_prop in H. destruct H as [Hx Hl].
  destruct (IH Hl) as [t Ht]. rewrite Ht.
  destruct x; try discriminate.
  destruct (nodes_string d s) as [u Hu]. rewrite Hu. eauto.
Qed.

Lemma forallb_firstn {A : Type} (P : A -> bool) (n : nat) (l : list A) :
  forallb P l = true -> forallb P (firstn n l) = true.
Proof.
  revert n. induction l as [|x l IH]; intros [|n]; simpl; auto.
  intros H. apply andb_prop in H. destruct H as [Hx Hl].
  rewrite Hx. simpl. auto.
Qed.

Lemma all_nodes_length (d : Display) (items : list json)
  (l : list (list string)) :
  all_nodes d items = Resolved l -> List.length l = List.length items.
Proof.
  revert l. induction items as [|x items IH]; intros l; simpl.
  - intros H. inversion H. reflexivity.
  - destruct (nodes d x) as [a|e]; destruct (all_nodes d items) as [b|e'];
      try discriminate.
    intros H. inversion H. simpl. rewrite (IH b eq_refl). reflexivity.
Qed.

End RenderFacts.

(** A value of the shape that [AIAnalysisResult] declares is shown without
    a fault: none of the overview, the analysis tab and the text tab throws
    on it. *)
Theorem conforming_analysis_renders (d : Render.Display)
  (data : option ProcessedImage) (v : json) :
  Render.analysis_of data = Some v ->
  Render.conforms v = true ->
  Render.is_resolved (Render.renderOverview d data) = true /\
  Render.is_resolved (Render.renderAiAnalysis d data) = true /\
  Render.is_resolved (Render.renderOcr d data) = true.
Proof.
  intros Hv Hc. destruct v as [| | | | |props]; try discriminate.
  unfold Render.conforms in Hc.
  apply andb_prop in Hc; destruct Hc as [Hc Hocr0].
  apply andb_prop in Hc; destruct Hc as [Hc Hauth0].
  apply andb_prop in Hc; destruct Hc as [Hc Hsafe0].
  apply andb_prop in Hc; destruct Hc as [Hc Hemo0].
  apply andb_prop in Hc; destruct Hc as [Hc Hcols0].
  apply andb_prop in Hc; destruct Hc as [Hc Hcat0].
  apply andb_prop in Hc; destruct Hc as [Hc Hscene0].
  apply andb_prop in Hc; destruct Hc as [Hobjs0 Hn0].
  destruct (get "authenticity" props) as [[| | | | |auth]|] eqn:Hauth;
    try discriminate.
  apply andb_prop in Hauth0; destruct Hauth0 as [Hauth0 Hscore].
  apply andb_prop in Hauth0; destruct Hauth0 as [Hedit Hreason].
  destruct (RenderFacts.is_string_array_inv _ Hobjs0) as (objs & Hobjs & Hso).
  destruct (RenderFacts.is_number_inv _ Hn0) as (n & Hn).
  destruct (RenderFacts.is_string_inv _ Hscene0) as (scene & Hscene).
  destruct (RenderFacts.one_of_inv _ _ Hcat0) as (cat & Hcat).
  destruct (RenderFacts.is_string_array_inv _ Hcols0) as (cols & Hcols & Hsc).
  destruct (RenderFacts.one_of_inv _ _ Hemo0) as (emo & Hemo).
  destruct (RenderFacts.is_boolean_inv _ Hsafe0) as (safe & Hsafe).
  destruct (RenderFacts.is_string_inv _ Hocr0) as (ocr & Hocr).
  destruct (RenderFacts.is_boolean_inv _ Hedit) as (ed & Hed).
  destruct (RenderFacts.is_string_inv _ Hreason) as (why & Hwhy).
  destruct (RenderFacts.is_number_inv _ Hscore) as (sc & Hsc').
  destruct (RenderFacts.nodes_string d scene) as (t1 & Ht1).
  destruct (RenderFacts.nodes_string d cat) as (t2 & Ht2).
  destruct (RenderFacts.nodes_string d emo) as (t3 & Ht3).
  destruct (RenderFacts.nodes_string d why) as (t4 & Ht4).
  destruct (RenderFacts.nodes_string d ocr) as (t5 & Ht5).
  destruct (RenderFacts.all_nodes_strings d (firstn 5 objs)
              (RenderFacts.forallb_firstn _ 5 objs Hso)) as (t6 & Ht6).
  destruct (RenderFacts.all_nodes_strings d cols Hsc) as (t7 & Ht7).
  split; [|split].
  - unfold Render.renderOverview, Render.render_insights. rewrite Hv.
    cbn [Render.truthy Render.member Render.and_then].
    rewrite Hscene, Hcat, Hn, Hobjs.
    cbn [Render.and_then Render.slice5_map Render.child].
    rewrite RenderFacts.map_items_id.
    cbn [Render.and_then]. rewrite Ht1, Ht2. cbn [Render.and_then Render.nodes].
    rewrite Ht6. reflexivity.
  - unfold Render.renderAiAnalysis. rewrite Hv.
    cbn [Render.truthy Render.member Render.and_then].
    rewrite Hauth, Hemo, Hcols, Hsafe.
    cbn [Render.truthy Render.member Render.and_then].
    rewrite Hed, Hwhy, Hsc'. cbn [Render.and_then].
    rewrite RenderFacts.map_items_id.
    cbn [Render.and_then Render.child]. rewrite Ht4, Ht3.
    cbn [Render.and_then]. rewrite Ht7. reflexivity.
  - unfold Render.renderOcr. rewrite Hv.
    cbn [Render.truthy Render.member Render.and_then]. rewrite Hocr.
    destruct (Render.truthy (Some (JStr ocr))); [|reflexivity].
    cbn [Render.child]. rewrite Ht5. reflexivity.
Qed.

Lemma conforming_analysis_renders_witness :
  Render.analysis_of (Some (settled Sample.worldA Sample.fileA 0%N
                              (Some Sample.resultA) None))
    = Some Sample.resultA /\
  Render.conforms Sample.resultA = true /\
  Render.is_resolved
    (Render.renderAiAnalysis Render.plain
       (Some (settled Sample.worldA Sample.fileA 0%N
                (Some Sample.resultA) None))) = true.
Proof.
  split; [reflexivity|]. split; [reflexivity|].
  exact (proj1 (proj2 (conforming_analysis_renders Render.plain
                         (Some (settled Sample.worldA Sample.fileA 0%N
                                  (Some Sample.resultA) None))
                         Sample.resultA eq_refl eq_refl))).
Defined.

Lemma final_record (w : World) (f : File) (st : App) :
  data (fst (run_alone (handleImageSelect w f) st)) =
  Some (settled w f (next_url st)
          match encoded w f with
          | Resolved payload => nullable (analysis_value w payload)
          | Rejected _ => None
          end
          match encoded w f with
          | Resolved _ => None
          | Rejected _ => Some failure_notice
          end).
Proof.
  rewrite handleImageSelect_run. destruct (encoded w f); reflexivity.
Qed.

(** The overview shows at most five detected objects, the first five of the
    list in their order: whenever it shows the insights, the analysis has a
    list of objects, and the chips are those of its first five items. *)
Theorem overview_shows_first_five_objects (d : Render.Display)
  (data : option ProcessedImage) (o : Render.Overview)
  (ins : Render.Insights) :
  Render.renderOverview d data = Resolved o ->
  Render.insights o = Render.Shown ins ->
  exists items,
    Render.member (Render.analysis_of data) "objects"
      = Resolved (Some (JArr items)) /\
    Render.all_nodes d (firstn 5 items)
      = Resolved (Render.objects_shown ins) /\
    List.length (Render.objects_shown ins)
      = Nat.min 5 (List.length items).
Proof.
  unfold Render.renderOverview, Render.render_insights.
  destruct (Render.truthy (Render.analysis_of data)) eqn:Ht.
  - destruct (Render.member (Render.analysis_of data) "sceneType")
      as [sv|]; cbn [Render.and_then]; [|discriminate].
    destruct (Render.member (Render.analysis_of data) "imageCategory")
      as [cv|]; cbn [Render.and_then]; [|discriminate].
    destruct (Render.member (Render.analysis_of data) "peopleCount")
      as [nv|]; cbn [Render.and_then]; [|discriminate].
    destruct (Render.member (Render.analysis_of data) "objects")
      as [[[| | | |items|]|]|]; cbn [Render.and_then Render.slice5_map];
      try discriminate.
    rewrite RenderFacts.map_items_id. cbn [Render.and_then].
    destruct (Render.child d sv); cbn [Render.and_then]; [|discriminate].
    destruct (Render.child d cv); cbn [Render.and_then]; [|discriminate].
    destruct (Render.child d nv); cbn [Render.and_then]; [|discriminate].
    destruct (Render.all_nodes d (firstn 5 items)) as [os|] eqn:Hos;
      cbn [Render.and_then]; [|discriminate].
    intros Ho Hi. inversion Ho; subst o. cbn [Render.insights] in Hi.
    inversion Hi; subst ins. cbn [Render.objects_shown].
    exists items. split; [reflexivity|]. split; [exact Hos|].
    rewrite (RenderFacts.all_nodes_length d _ _ Hos).
    apply length_firstn.
  - destruct (Render.analysis_of data) as [[]|]; cbn [Render.and_then];
      intros Ho Hi; inversion Ho; subst o; discriminate.
Qed.

Lemma overview_shows_first_five_objects_witness :
  Render.renderOverview Render.plain Shown.crowded = Resolved Shown.view /\
  Render.insights Shown.view
    = Render.Shown {| Render.scene := ["Urban"];
                      Render.category := ["Photo"];
                      Render.people := ["2"];
                      Render.objects_shown :=
                        [["a"]; ["b"]; ["c"]; ["d"]; ["e"]] |} /\
  exists items,
    Render.member (Render.analysis_of Shown.crowded) "objects"
      = Resolved (Some (JArr items)) /\
    List.length items = 7%nat.
Proof.
  split; [reflexivity|]. split; [reflexivity|].
  destruct (overview_shows_first_five_objects Render.plain Shown.crowded
              Shown.view _ eq_refl eq_refl) as (items & Hm & _ & _).
  exists items. split; [exact Hm|].
  inversion Hm. reflexivity.
Defined.

(** An answer of the service that is an object without [authenticity], or
    without [dominantColors], is attached to the record as it is, and the
    analysis tab then throws when it is shown; without [objects], the
    overview throws. *)
Theorem incomplete_answer_breaks_the_view (d : Render.Display) (w : World)
  (f : File) (st : App) (payload : option string)
  (props : list (string * json)) :
  encoded w f = Resolved payload ->
  service_answer w payload = Some (JObj props) ->
  let shown := data (fst (run_alone (handleImageSelect w f) st)) in
  Render.analysis_of shown = Some (JObj props) /\
  (get "authenticity" props = None \/ get "dominantColors" props = None ->
   Render.renderAiAnalysis d shown = Rejected Render.type_error) /\
  (get "objects" props = None ->
   Render.renderOverview d shown = Rejected Render.type_error).
Proof.
  intros He Ha. cbv zeta. rewrite final_record, He.
  assert (Hv : analysis_value w payload = JObj props).
  { unfold analysis_value. rewrite Ha.
    revert Ha. unfold analysis_fault, service_answer.
    destruct (client_of w) as [ai|]; [|discriminate].
    destruct (generateContent w ai payload) as [response|]; [|discriminate].
    destruct (text response) as [[|c t]|]; try discriminate.
    destruct (parse (String c t)); [reflexivity|discriminate]. }
  rewrite Hv. cbn [nullable]. split; [reflexivity|]. split.
  - intros H. unfold Render.renderAiAnalysis.
    cbn [Render.analysis_of settled aiAnalysis Render.truthy Render.member
           Render.and_then].
    destruct (get "authenticity" props) as [[| | | | |auth]|] eqn:Hauth;
      cbn [Render.member Render.and_then]; try reflexivity;
      (destruct H as [H|H]; [discriminate|]); rewrite H; reflexivity.
  - intros H. unfold Render.renderOverview, Render.render_insights.
    cbn [Render.analysis_of settled aiAnalysis Render.truthy Render.member
           Render.and_then].
    rewrite H. reflexivity.
Qed.

Lemma incomplete_answer_breaks_the_view_witness :
  encoded Incomplete.w Sample.fileA = Resolved Incomplete.payload /\
  service_answer Incomplete.w Incomplete.payload
    = Some (JObj [("objects", JArr [])]) /\
  Render.renderAiAnalysis Render.plain
    (data (fst (run_alone (handleImageSelect Incomplete.w Sample.fileA)
                  initial)))
    = Rejected Render.type_error.
Proof.
  split; [reflexivity|]. split; [reflexivity|].
  destruct (incomplete_answer_breaks_the_view Render.plain Incomplete.w
              Sample.fileA initial Incomplete.payload
              [("objects", JArr [])] eq_refl eq_refl) as (_ & H & _).
  apply H. left. reflexivity.
Defined.

(** When the analysis fails inside the client (no key, network failure,
    empty or unreadable answer), the page shows the image as original and
    safe: the analysis tab reads Original, "Analysis failed", a score of 0,
    Safe, the emotion None and no colours; the text tab reads that no text
    was detected; the overview reads Unknown, Other and 0 persons. *)
Theorem failed_analysis_is_shown_as_safe (d : Render.Display) (w : World)
  (f : File) (st : App) (payload : option string) (e : exn) :
  encoded w f = Resolved payload ->
  analysis_fault w payload = Some e ->
  let shown := data (fst (run_alone (handleImageSelect w f) st)) in
  Render.renderAiAnalysis d shown =
    Resolved (Render.Analysed
                {| Render.edited := false;
                   Render.reason := ["Analysis failed"];
                   Render.score := Some (JNum 0);
                   Render.safe := true;
                   Render.emotion := ["None"];
                   Render.swatches := [] |}) /\
  Render.renderOcr d shown = Resolved Render.NoText /\
  exists o,
    Render.renderOverview d shown = Resolved o /\
    Render.insights o =
      Render.Shown {| Render.scene := ["Unknown"];
                      Render.category := ["Other"];
                      Render.people := [Render.show_number d 0];
                      Render.objects_shown := [] |}.
Proof.
  intros He Hf. cbv zeta. rewrite final_record, He.
  unfold analysis_value. rewrite Hf. cbn [nullable fallback].
  split; [reflexivity|]. split; [reflexivity|].
  eexists. split; reflexivity.
Qed.

Lemma failed_analysis_is_shown_as_safe_witness :
  encoded Shown.offline Sample.fileA = Resolved Shown.payload /\
  analysis_fault Shown.offline Shown.payload
    = Some (Failure "Failed to fetch") /\
  Render.renderOcr Render.plain
    (data (fst (run_alone (handleImageSelect Shown.offline Sample.fileA)
                  initial)))
    = Resolved Render.NoText.
Proof.
  split; [reflexivity|]. split; [reflexivity|].
  exact (proj1 (proj2 (failed_analysis_is_shown_as_safe Render.plain
                         Shown.offline Sample.fileA initial Shown.payload
                         (Failure "Failed to fetch") eq_refl eq_refl))).
Defined.

(* ================================================================== *)
(** * Row labels *)
(* ================================================================== *)

Lemma squeeze_space_capitals (s : string) :
  squeeze (Render.space_capitals s) = squeeze s.
Proof.
  induction s as [|c s IH]; simpl; [reflexivity|].
  destruct (Render.is_upper c) eqn:Hu; simpl.
  - rewrite IH. reflexivity.
  - rewrite IH. reflexivity.
Qed.

Lemma squeeze_trim_start (s : string) :
  squeeze (Render.trim_start s) = squeeze s.
Proof.
  induction s as [|c s IH]; simpl; [reflexivity|].
  destruct (Render.is_space c) eqn:Hc; [exact IH|].
  simpl. rewrite Hc. reflexivity.
Qed.

Lemma squeeze_trim_end (s : string) :
  squeeze (Render.trim_end s) = squeeze s.
Proof.
  induction s as [|c s IH]; simpl; [reflexivity|].
  destruct (Render.trim_end s) as [|c' s'] eqn:Ht.
  - simpl in IH. rewrite <- IH.
    destruct (Render.is_space c) eqn:Hc; simpl; rewrite ?Hc; reflexivity.
  - simpl. simpl in IH. rewrite IH. reflexivity.
Qed.

Lemma trim_start_head (s : string) (c : ascii) (r : string) :
  Render.trim_start s = String c r -> Render.is_space c = false.
Proof.
  induction s as [|x s IH]; simpl; [discriminate|].
  destruct (Render.is_space x) eqn:Hx; [exact IH|].
  intros H. inversion H; subst. exact Hx.
Qed.

Lemma trim_end_head (c : ascii) (r : string) :
  Render.is_space c = false ->
  exists r', Render.trim_end (String c r) = String c r'.
Proof.
  intros Hc. simpl. destruct (Render.trim_end r); rewrite ?Hc; eauto.
Qed.

(* ================================================================== *)
(** * The camera *)
(* ================================================================== *)

(** Pressing the capture button captures exactly when the video is shown, a
    drawing context is to be had and the frame has bytes.  Then the owner is
    handed one file, named [capture_], the clock reading and [.jpg], and
    after that every track of the stream is stopped, once each.  In every
    other case nothing happens at all: nothing is handed over, no track is
    stopped. *)
Theorem capture_or_nothing (dev : Camera.Device) (st : Camera.State) :
  match Camera.videoRef dev st with
  | Some (vw, vh) =>
      match Camera.getContext2d dev,
            Camera.toBlob dev vw vh "image/jpeg" (95 # 100) with
      | true, Some _ =>
          exists f,
            Camera.handleCapture dev st
              = Camera.OnCapture f :: Camera.stopCamera st /\
            name f = ("capture_" ++ toString (Camera.clock dev) ++ ".jpg")%string /\
            filter Camera.is_capture (Camera.handleCapture dev st)
              = [Camera.OnCapture f] /\
            filter Camera.is_stop (Camera.handleCapture dev st)
              = match Camera.stream st with
                | Some s => map Camera.StopTrack s
                | None => []
                end
      | _, _ => Camera.handleCapture dev st = []
      end
  | None => Camera.handleCapture dev st = []
  end.
Proof.
  unfold Camera.handleCapture.
  destruct (Camera.videoRef dev st) as [[vw vh]|]; [|reflexivity].
  destruct (Camera.getContext2d dev); [|reflexivity].
  destruct (Camera.toBlob dev vw vh "image/jpeg" (95 # 100)) as [blob|];
    [|reflexivity].
  eexists. split; [reflexivity|]. split; [reflexivity|].
  assert (Hs : forall s, filter Camera.is_capture (map Camera.StopTrack s) = []
                         /\ filter Camera.is_stop (map Camera.StopTrack s)
                            = map Camera.StopTrack s).
  { induction s as [|t s [IH1 IH2]]; simpl; [auto|].
    rewrite IH1, IH2. auto. }
  unfold Camera.stopCamera. simpl.
  destruct (Camera.stream st) as [s|]; [|auto].
  destruct (Hs s) as [H1 H2]. rewrite H1, H2. auto.
Qed.

(** When access to the camera is refused, the component shows its message
    and holds no stream; from then on the capture button does nothing,
    whatever the device would deliver, and the close button stops no track
    and only reports the closing. *)
Theorem refused_camera_is_inert (dev : Camera.Device) (st : Camera.State)
  (err : exn) :
  Camera.getUserMedia dev = Rejected err ->
  Camera.stream st = None ->
  let st' := fst (Camera.startCamera dev st) in
  Camera.error st' = Camera.denied /\
  Camera.stream st' = None /\
  snd (Camera.startCamera dev st) = [Camera.LogError "Camera error:" err] /\
  (forall dev', Camera.handleCapture dev' st' = []) /\
  Camera.handleClose st' = [Camera.OnClose].
Proof.
  intros Hg Hs. cbv zeta. unfold Camera.startCamera. rewrite Hg.
  cbn [fst snd Camera.error Camera.stream]. rewrite Hs.
  repeat split.
Qed.

Lemma refused_camera_is_inert_witness :
  Camera.getUserMedia Camera.refused = Rejected (Failure "NotAllowedError") /\
  Camera.stream Camera.mounted = None /\
  Camera.handleCapture Camera.working
    (fst (Camera.startCamera Camera.refused Camera.mounted)) = [].
Proof.
  split; [reflexivity|]. split; [reflexivity|].
  destruct (refused_camera_is_inert Camera.refused Camera.mounted
              (Failure "NotAllowedError") eq_refl eq_refl)
    as (_ & _ & _ & H & _).
  exact (H Camera.working).
Defined.

(** A capture handed to the page starts a record for the captured file, as
    a selection does, and closes the camera view: the record carries the
    file named after the camera's clock, and the first effects are the new
    preview URL and the closing of the camera. *)
Theorem capture_starts_a_record (w : World) (dev : Camera.Device)
  (st : Camera.State) (f : File) (rest : list Camera.action) (p : Page) :
  Camera.handleCapture dev st = Camera.OnCapture f :: rest ->
  let after := launch (handleImageSelect w f) p in
  name f = ("capture_" ++ toString (Camera.clock dev) ++ ".jpg")%string /\
  rest = Camera.stopCamera st /\
  after = step p (Select w f) /\
  data (app after) = Some (newImage w f (next_url (app p))) /\
  firstn 2 (added (app p) (app after))
    = [ObjectURLCreated (next_url (app p)) (OfFile f); SetShowCamera false].
Proof.
  unfold Camera.handleCapture.
  destruct (Camera.videoRef dev st) as [[vw vh]|]; [|discriminate].
  destruct (Camera.getContext2d dev); [|discriminate].
  destruct (Camera.toBlob dev vw vh "image/jpeg" (95 # 100)) as [blob|];
    [|discriminate].
  intros H. inversion H; subst. cbv zeta.
  split; [reflexivity|]. split; [reflexivity|]. split; [reflexivity|].
  split; [reflexivity|].
  unfold added, launch. rewrite handleImageSelect_opens.
  unfold pipeline, extractExifData, exifr_parse_async, settle.
  cbn [run bind try_catch app log opened].
  rewrite <- app_assoc, skipn_own_length. reflexivity.
Qed.

Lemma capture_starts_a_record_witness :
  Camera.handleCapture Camera.working
    (fst (Camera.startCamera Camera.working Camera.mounted))
  = [Camera.OnCapture {| name := "capture_1700000000123.jpg";
                         lastModified := 1700000000124 |};
     Camera.StopTrack 1%N; Camera.StopTrack 2%N] /\
  option_map (fun r => name (file r))
    (data (app (launch (handleImageSelect Sample.worldA
                          {| name := "capture_1700000000123.jpg";
                             lastModified := 1700000000124 |}) start)))
  = Some "capture_1700000000123.jpg".
Proof.
  split; [reflexivity|].
  destruct (capture_starts_a_record Sample.worldA Camera.working
              (fst (Camera.startCamera Camera.working Camera.mounted))
              {| name := "capture_1700000000123.jpg";
                 lastModified := 1700000000124 |}
              [Camera.StopTrack 1%N; Camera.StopTrack 2%N] start eq_refl)
    as (_ & _ & _ & Hd & _).
  rewrite Hd. reflexivity.
Defined.

(* ================================================================== *)
(** * More on overlapping records *)
(* ================================================================== *)

Lemma reader_in_flight (w : World) (f : File) (p : Page) :
  inflight (execute [Select w f; Resume (List.length (inflight p))] p)
  = inflight p ++ [awaiting_reader w f].
Proof.
  destruct p as [st l].
  unfold execute, fold_left, step, launch.
  rewrite handleImageSelect_opens. unfold opened, pipeline.
  unfold extractExifData, exifr_parse_async, settle, fileToBase64.
  cbn [run bind try_catch app inflight].
  unfold resume. cbn [app inflight]. rewrite nth_error_last.
  destruct (exifr_parse w f) as [[output|]|e];
    cbn [run bind try_catch setData perform app inflight];
    rewrite replace_nth_last; reflexivity.
Qed.

(** When the reader of record A fails, the error notice goes to whichever
    record is active at that moment, with no comparison of ids: if a record
    B was started in the meantime, B's record takes the notice and is marked
    as processed, and keeps what it had otherwise.  The notice is dropped
    only when no record is active.  A's invocation ends there. *)
Theorem encode_failure_marks_active_record (w : World) (f : File) (e : exn)
  (p : Page) (i : nat) :
  encoded w f = Rejected e ->
  nth_error (inflight p) i = Some (awaiting_reader w f) ->
  data (app (resume i p)) =
    match data (app p) with
    | Some r =>
        Some {| id := id r; file := file r; previewUrl := previewUrl r;
                exif := exif r; aiAnalysis := aiAnalysis r;
                isProcessing := false; error := Some failure_notice |}
    | None => None
    end /\
  added (app p) (app (resume i p)) = [ConsoleError None e] /\
  inflight (resume i p) = remove_nth i (inflight p).
Proof.
  intros He Hk. unfold resume. rewrite Hk. unfold awaiting_reader, added.
  revert He. unfold encoded.
  destruct (readAsDataURL w f) as [[s|]|err]; try discriminate;
    intros He; inversion He; subst e;
    cbn [run bind try_catch setData perform app data log inflight];
    rewrite skipn_own_length; repeat split.
Qed.

Lemma encode_failure_marks_active_record_witness :
  encoded LateFailure.worldA' Sample.fileA
    = Rejected (Failure "NotReadableError") /\
  nth_error (inflight LateFailure.before) 0
    = Some (awaiting_reader LateFailure.worldA' Sample.fileA) /\
  data (app (resume 0 LateFailure.before)) =
    Some {| id := "1700000000500"; file := Sample.fileB; previewUrl := 1%N;
            exif := None; aiAnalysis := None;
            isProcessing := false; error := Some failure_notice |}.
Proof.
  split; [reflexivity|]. split; [reflexivity|].
  exact (proj1 (encode_failure_marks_active_record LateFailure.worldA'
                  Sample.fileA (Failure "NotReadableError")
                  LateFailure.before 0 eq_refl eq_refl)).
Defined.

(* ================================================================== *)
(** * Places come in pairs *)
(* ================================================================== *)

(** C4. For every asset, the metadata record produced by extraction has a
    latitude if and only if it has a longitude.  The extractor copies the
    two from what the parser hands back, each as it is, so the record has
    them exactly as the parser gives them; and the parser surfaces the two
    only together.  So an asset without geolocation tags has neither, an
    asset with only one of the two coordinates has neither, and an asset
    with both has both, as they are. *)
Theorem geolocation_only_as_pair :
  (forall (w : World) (f : File) (st : App),
   exists r,
     snd (run_alone (extractExifData w f) st) = Resolved r /\
     match exifr_parse w f, r with
     | Resolved (Some output), Some x =>
         latitude x = Exifr.latitude output /\
         longitude x = Exifr.longitude output
     | Resolved (Some _), None => False
     | _, Some _ => False
     | _, None => True
     end) /\
  (forall (tags : File -> outcome (option Parser.Tags))
          (w : World) (f : File) (st : App),
   exists r,
     snd (run_alone (extractExifData (Parser.reads tags w) f) st)
       = Resolved r /\
     match tags f, r with
     | Resolved (Some t), Some x =>
         (latitude x <> None <-> longitude x <> None) /\
         match Parser.GPSLatitude t, Parser.GPSLongitude t with
         | Some lat, Some lon =>
             latitude x = Some lat /\ longitude x = Some lon
         | _, _ => latitude x = None /\ longitude x = None
         end
     | Resolved (Some _), None => False
     | _, Some _ => False
     | _, None => True
     end).
Proof.
  split.
  - intros w f st. rewrite extractExifData_run.
    destruct (exifr_parse w f) as [[output|]|e]; cbn [snd].
    + eexists. split; [reflexivity|]. split; reflexivity.
    + exists None. split; [reflexivity | exact I].
    + exists None. split; [reflexivity | exact I].
  - intros tags w f st. rewrite extractExifData_run.
    cbn [Parser.reads exifr_parse Parser.verdict].
    destruct (tags f) as [[t|]|e]; cbn [Parser.verdict snd].
    + eexists. split; [reflexivity|].
      cbn [latitude longitude Parser.output Exifr.latitude Exifr.longitude].
      destruct (Parser.GPSLatitude t) as [lat|];
        destruct (Parser.GPSLongitude t) as [lon|];
        (split; [split; intros H; try discriminate;
                 try (exfalso; apply H; reflexivity)
                | split; reflexivity]).
    + exists None. split; [reflexivity | exact I].
    + exists None. split; [reflexivity | exact I].
Qed.

(** On an asset that has a latitude tag and no longitude tag, neither is in
    the record. *)
Example latitude_tag_alone_is_not_surfaced :
  exists x,
    snd (run_alone (extractExifData
                      (Parser.reads (fun _ => Resolved (Some Parser.half))
                         Sample.worldA) Sample.fileA) initial)
      = Resolved (Some x) /\
    latitude x = None /\ longitude x = None.
Proof. eexists. split; [reflexivity|]. split; reflexivity. Qed.

(* ================================================================== *)
(** * The error notice *)
(* ================================================================== *)




(* ================================================================== *)
(** * A record processed without interruption *)
(* ================================================================== *)

(** When a record is processed from its selection to the end with nothing
    else scheduled in between, a failure of the metadata parser does not
    stop the pipeline: the failure is logged, the record carries no
    metadata, and as long as the encoder succeeds the record is completed
    with the value of the analysis call, without the error notice.  What
    was in flight before is in flight after. *)
Theorem parser_failure_is_not_fatal (w : World) (f : File) (p : Page)
  (e : exn) (s : string) :
  exifr_parse w f = Rejected e ->
  readAsDataURL w f = OnLoad (ResultString s) ->
  exists payload r,
    encoded w f = Resolved payload /\
    data (app (execute (alone w f p) p)) = Some r /\
    exif r = None /\
    error r = None /\
    isProcessing r = false /\
    aiAnalysis r = nullable (analysis_value w payload) /\
    added (app p) (app (execute (alone w f p) p)) =
      [ObjectURLCreated (next_url (app p)) (OfFile f); SetShowCamera false;
       ConsoleError (Some "Failed to extract EXIF") e]
      ++ analysis_log w payload /\
    inflight (execute (alone w f p) p) = inflight p.
Proof.
  intros Hp Hr.
  assert (He : encoded w f = Resolved (nth_error (split "," s) 1)).
  { unfold encoded. rewrite Hr. reflexivity. }
  unfold alone, added. rewrite record_uninterrupted. cbn [app inflight].
  rewrite handleImageSelect_run, He. cbn [fst data log].
  eexists. eexists. split; [reflexivity|]. split; [reflexivity|].
  unfold settled, extracted, extract_log. rewrite extractExifData_run, Hp.
  cbn [snd exif error isProcessing aiAnalysis].
  repeat (split; [reflexivity|]).
  rewrite skipn_own_length. split; reflexivity.
Qed.

Lemma parser_failure_is_not_fatal_witness :
  exifr_parse Encoded.unreadable Sample.fileA
    = Rejected (Failure "Unknown file format") /\
  readAsDataURL Encoded.unreadable Sample.fileA
    = OnLoad (ResultString "data:image/jpeg;base64,/9j/4AAQ") /\
  exists r,
    data (app (execute (alone Encoded.unreadable Sample.fileA start) start))
      = Some r /\
    exif r = None /\ error r = None /\ aiAnalysis r = Some Sample.resultA.
Proof.
  split; [reflexivity|]. split; [reflexivity|].
  destruct (parser_failure_is_not_fatal Encoded.unreadable Sample.fileA
              start (Failure "Unknown file format")
              "data:image/jpeg;base64,/9j/4AAQ" eq_refl eq_refl)
    as (payload & r & He & Hd & Hx & Herr & _ & Ha & _).
  exists r. split; [exact Hd|]. split; [exact Hx|]. split; [exact Herr|].
  rewrite Ha. inversion He. reflexivity.
Defined.

(** When a record is processed from its selection to the end with nothing
    else scheduled in between, the metadata tab then reads "No EXIF data
    found." exactly when the parser failed or found nothing.  Otherwise it
    is a table of twelve rows, always the same twelve and in the same order,
    whatever tags the image has; the cell of a tag the image lacks is
    empty. *)
Theorem exif_tab_of_processed_record (d : Render.Display) (w : World)
  (f : File) (p : Page) :
  let shown := data (app (execute (alone w f p) p)) in
  match exifr_parse w f with
  | Resolved (Some output) =>
      exists rows,
        Render.renderExif d shown = Render.Table rows /\
        map fst rows = exif_labels /\
        map snd rows =
          [ Exifr.Make output;
            Exifr.Model output;
            (if truthy_date (Exifr.DateTimeOriginal output)
             then option_map (toLocaleString w) (Exifr.DateTimeOriginal output)
             else None);
            option_map (Render.show d) (Exifr.ExposureTime output);
            option_map (Render.show d) (Exifr.FNumber output);
            option_map (Render.show d) (Exifr.ISO output);
            option_map (Render.show d) (Exifr.FocalLength output);
            option_map (Render.show d) (Exifr.latitude output);
            option_map (Render.show d) (Exifr.longitude output);
            Exifr.Software output;
            option_map (Render.show d) (Exifr.ExifImageWidth output);
            option_map (Render.show d) (Exifr.ExifImageHeight output) ]
  | _ => Render.renderExif d shown = Render.NoExif
  end.
Proof.
  cbv zeta. unfold alone. rewrite record_uninterrupted. cbn [app].
  rewrite final_record.
  unfold Render.renderExif, Render.exif_of, settled, extracted.
  cbn [exif]. rewrite extractExifData_run.
  destruct (exifr_parse w f) as [[output|]|e]; cbn [snd]; try reflexivity.
  eexists. split; [reflexivity|]. split; reflexivity.
Qed.

(** When a record is processed from its selection to the end with nothing
    else scheduled in between, the overview then shows the location banner
    exactly when the parser reported a latitude that is truthy, that is, a
    number other than zero and NaN; the banner has the latitude to four
    places and, after it, the longitude likewise when there is one.  With no
    latitude nothing is shown, whatever the longitude.  A latitude of zero
    or NaN shows no banner, only that number as stray text. *)
Theorem location_banner_of_processed_record (d : Render.Display) (w : World)
  (f : File) (p : Page) (output : Exifr.Output) :
  exifr_parse w f = Resolved (Some output) ->
  let banner :=
    Render.render_location d (data (app (execute (alone w f p) p))) in
  banner =
    match Exifr.latitude output with
    | None => Render.Nothing
    | Some NaN => Render.Stray "NaN"
    | Some (Finite lat) =>
        if (Qnum lat =? 0)%Z then Render.Stray (Render.show_number d lat)
        else Render.Shown
               {| Render.latitude_text := Render.toFixed d lat 4;
                  Render.longitude_text :=
                    option_map (fun lon => Render.fixed d lon 4)
                               (Exifr.longitude output) |}
    | Some (Infinity negative) =>
        Render.Shown
          {| Render.latitude_text :=
               if negative then "-Infinity" else "Infinity";
             Render.longitude_text :=
               option_map (fun lon => Render.fixed d lon 4)
                          (Exifr.longitude output) |}
    end /\
  ((exists b, banner = Render.Shown b) <->
   (exists lat, Exifr.latitude output = Some lat /\
                truthy_number lat = true)).
Proof.
  intros Hp. cbv zeta. unfold alone. rewrite record_uninterrupted.
  cbn [app]. rewrite final_record.
  unfold Render.render_location, Render.field, Render.exif_of, settled,
    extracted.
  cbn [exif]. rewrite extractExifData_run, Hp.
  cbn [snd latitude longitude].
  destruct (Exifr.latitude output) as [[lat|[|]|]|];
    cbn [truthy_number Render.fixed Render.show].
  - destruct (Qnum lat =? 0)%Z eqn:Hz; cbn [negb].
    + split; [reflexivity|]. split.
      * intros [b Hb]. discriminate.
      * intros [l [Hl Ht]]. inversion Hl; subst.
        cbn [truthy_number] in Ht. rewrite Hz in Ht. discriminate.
    + split; [reflexivity|]. split; intros _.
      * eexists. split; [reflexivity|].
        cbn [truthy_number]. rewrite Hz. reflexivity.
      * eexists. reflexivity.
  - split; [reflexivity|]. split; intros _.
    + eexists. split; reflexivity.
    + eexists. reflexivity.
  - split; [reflexivity|]. split; intros _.
    + eexists. split; reflexivity.
    + eexists. reflexivity.
  - split; [reflexivity|]. split.
    + intros [b Hb]. discriminate.
    + intros [l [Hl Ht]]. inversion Hl; subst. discriminate.
  - split; [reflexivity|]. split.
    + intros [b Hb]. discriminate.
    + intros [l [Hl Ht]]. discriminate.
Qed.

Lemma location_banner_of_processed_record_witness :
  exifr_parse Shown.on_equator Sample.fileA = Resolved (Some Shown.equator) /\
  Exifr.longitude Shown.equator = Some (Finite (-785 # 10)) /\
  Render.render_location Render.plain
    (data (app (execute (alone Shown.on_equator Sample.fileA start) start)))
    = Render.Stray "0".
Proof.
  split; [reflexivity|]. split; [reflexivity|].
  exact (proj1 (location_banner_of_processed_record Render.plain
                  Shown.on_equator Sample.fileA start Shown.equator eq_refl)).
Defined.

(* ================================================================== *)
(** * Which calls can fail *)
(* ================================================================== *)

(** A handler that is given a file never fails: whatever the parser, the
    reader, the service, the image decoder and the canvas do,
    [handleImageSelect] on a file, [handlePrivacyClean] and the work started
    by a drop settle normally, every fault having been caught inside.  The
    first line of [handleImageSelect] is outside its [try], so the one call
    that fails is the file input's with an empty list of files, which hands
    the handler [undefined]: that call is rejected and nothing has changed
    or been logged. *)
Theorem only_the_call_without_a_file_rejects (w : World) (st : App) :
  (forall f, snd (run_alone (handleImageSelect w f) st) = Resolved tt) /\
  (forall d, snd (run_alone (handlePrivacyClean w d) st) = Resolved tt) /\
  (forall files,
     snd (run_alone (work (handleDrop w files)) st) = Resolved tt) /\
  (forall files,
     snd (run_alone (handleFileInput w files) st) =
       match files with
       | Some [] => Rejected no_file
       | _ => Resolved tt
       end) /\
  (forall files e,
     snd (run_alone (handleFileInput w files) st) = Rejected e <->
     files = Some [] /\ e = no_file) /\
  run_alone (handleFileInput w (Some [])) st = (st, Rejected no_file).
Proof.
  assert (HS : forall f,
             snd (run_alone (handleImageSelect w f) st) = Resolved tt).
  { intros f. rewrite handleImageSelect_run.
    destruct (encoded w f); reflexivity. }
  assert (HF : forall files,
             snd (run_alone (handleFileInput w files) st) =
               match files with
               | Some [] => Rejected no_file
               | _ => Resolved tt
               end).
  { intros [[|f rest]|]; [reflexivity | apply HS | reflexivity]. }
  split; [exact HS|]. split.
  { intros [d|]; [|reflexivity].
    rewrite handlePrivacyClean_run.
    destruct (cleaned w (previewUrl d) default_format) as [[b|]|e];
      reflexivity. }
  split.
  { intros [[|f rest]|]; [reflexivity | apply HS | reflexivity]. }
  split; [exact HF|]. split; [|reflexivity].
  intros files e. rewrite HF. destruct files as [[|f rest]|].
  - split.
    + intros H. inversion H. split; reflexivity.
    + intros [_ He]. rewrite He. reflexivity.
  - split; [discriminate | intros [H _]; discriminate].
  - split; [discriminate | intros [H _]; discriminate].
Qed.

(* ================================================================== *)
(** * Row labels, in closed form *)
(* ================================================================== *)

Lemma alphanumeric_cons (c : ascii) (r : string) :
  alphanumeric (String c r) = true ->
  Render.is_space c = false /\ Ascii.eqb c " " = false /\
  alphanumeric r = true.
Proof.
  cbn [alphanumeric]. intros H. apply andb_true_iff in H as [Hc Hr].
  assert (Hn : N_of_ascii c <> 32%N /\
               ~ (9 <= N_of_ascii c <= 13)%N).
  { revert Hc. generalize (N_of_ascii c). intros n Hc.
    repeat rewrite orb_true_iff in Hc. repeat rewrite andb_true_iff in Hc.
    repeat rewrite N.leb_le in Hc. lia. }
  destruct Hn as [H32 H9]. split; [|split; [|exact Hr]].
  - unfold Render.is_space.
    apply orb_false_iff. split.
    + apply andb_false_iff.
      destruct (N.leb_spec 9 (N_of_ascii c)) as [Ha|Ha]; [|left; reflexivity].
      right. apply N.leb_gt. lia.
    + apply N.eqb_neq. exact H32.
  - destruct (Ascii.eqb_spec c " ") as [E|E]; [|reflexivity].
    exfalso. apply H32. rewrite E. reflexivity.
Qed.

Lemma capital_is_no_space (c : ascii) :
  Render.is_upper c = true -> Ascii.eqb c " " = false.
Proof.
  intros H. destruct (Ascii.eqb_spec c " ") as [E|E]; [|reflexivity].
  rewrite E in H. discriminate.
Qed.

Lemma squeeze_alphanumeric (s : string) :
  alphanumeric s = true -> squeeze s = s.
Proof.
  induction s as [|c r IH]; [reflexivity|]. intros H.
  destruct (alphanumeric_cons c r H) as (Hs & _ & Hr).
  cbn [squeeze]. rewrite Hs, (IH Hr). reflexivity.
Qed.

Lemma blanks_alphanumeric (s : string) :
  alphanumeric s = true -> blanks s = O.
Proof.
  induction s as [|c r IH]; [reflexivity|]. intros H.
  destruct (alphanumeric_cons c r H) as (_ & He & Hr).
  cbn [blanks]. rewrite He. exact (IH Hr).
Qed.

Lemma blanks_space_capitals (s : string) :
  blanks (Render.space_capitals s) = (capitals s + blanks s)%nat.
Proof.
  induction s as [|c r IH]; [reflexivity|].
  cbn [Render.space_capitals capitals].
  destruct (Render.is_upper c) eqn:Hu.
  - cbn [blanks]. rewrite (capital_is_no_space c Hu). cbn [Ascii.eqb].
    change (Ascii.eqb " " " ") with true. cbn iota. rewrite IH. reflexivity.
  - cbn [blanks]. rewrite IH. destruct (Ascii.eqb c " "); lia.
Qed.

Lemma spaced_after_space_capitals (s : string) (prev : ascii) :
  spaced_after prev (Render.space_capitals s) = true.
Proof.
  revert prev. induction s as [|c r IH]; intros prev; [reflexivity|].
  cbn [Render.space_capitals].
  destruct (Render.is_upper c) eqn:Hu.
  - cbn [spaced_after]. rewrite IH.
    change (Render.is_upper " ") with false.
    change (Ascii.eqb " " " ") with true.
    rewrite orb_true_r. reflexivity.
  - cbn [spaced_after]. rewrite Hu, IH. reflexivity.
Qed.

Lemma trim_end_cons (c : ascii) (s : string) :
  Render.trim_end s = s ->
  Render.is_space c = false ->
  Render.trim_end (String c s) = String c s.
Proof.
  intros Hs Hc. cbn [Render.trim_end]. rewrite Hs.
  destruct s; [rewrite Hc|]; reflexivity.
Qed.

Lemma trim_end_space_capitals (s : string) :
  alphanumeric s = true ->
  Render.trim_end (Render.space_capitals s) = Render.space_capitals s.
Proof.
  induction s as [|c r IH]; [reflexivity|]. intros H.
  destruct (alphanumeric_cons c r H) as (Hs & _ & Hr).
  pose proof (trim_end_cons c _ (IH Hr) Hs) as E.
  cbn [Render.space_capitals]. destruct (Render.is_upper c); [|exact E].
  cbn [Render.trim_end] in E |- *. rewrite E. reflexivity.
Qed.

Lemma label_cons (c : ascii) (r : string) :
  alphanumeric (String c r) = true ->
  Render.label (String c r) = String c (Render.space_capitals r).
Proof.
  intros H. destruct (alphanumeric_cons c r H) as (Hs & _ & Hr).
  unfold Render.label, Render.trim.
  assert (E : Render.trim_start (Render.space_capitals (String c r))
              = String c (Render.space_capitals r)).
  { cbn [Render.space_capitals]. destruct (Render.is_upper c).
    - cbn [Render.trim_start]. change (Render.is_space " ") with true.
      cbn iota. rewrite Hs. reflexivity.
    - cbn [Render.trim_start]. rewrite Hs. reflexivity. }
  rewrite E. apply trim_end_cons; [|exact Hs].
  apply trim_end_space_capitals. exact Hr.
Qed.

(** The label of a row is the property name with one space put before each
    capital letter that is not its first character, and with nothing else
    changed, for a name of ASCII letters and digits, as the twelve names
    are.  So taking the white space out of the label gives the name back;
    every capital letter of the label after its first character comes right
    after a space; the label has as many spaces as the name has capital
    letters after its first character; and the label neither begins nor ends
    with white space. *)
Theorem label_spaces_the_capitals (key : string) :
  alphanumeric key = true ->
  Render.label key =
    match key with
    | EmptyString => EmptyString
    | String c rest => String c (Render.space_capitals rest)
    end /\
  squeeze (Render.label key) = key /\
  spaced (Render.label key) = true /\
  blanks (Render.label key) =
    capitals match key with
             | EmptyString => EmptyString
             | String _ rest => rest
             end /\
  Render.trim_start (Render.label key) = Render.label key /\
  Render.trim_end (Render.label key) = Render.label key.
Proof.
  destruct key as [|c r]; intros H.
  { repeat split. }
  destruct (alphanumeric_cons c r H) as (Hs & He & Hr).
  rewrite (label_cons c r H).
  split; [reflexivity|]. split.
  { cbn [squeeze]. rewrite Hs, squeeze_space_capitals,
      (squeeze_alphanumeric r Hr). reflexivity. }
  split.
  { cbn [spaced]. apply spaced_after_space_capitals. }
  split.
  { cbn [blanks]. rewrite He, blanks_space_capitals,
      (blanks_alphanumeric r Hr). lia. }
  split.
  { cbn [Render.trim_start]. rewrite Hs. reflexivity. }
  apply trim_end_cons; [|exact Hs].
  apply trim_end_space_capitals. exact Hr.
Qed.

Lemma label_spaces_the_capitals_witness :
  alphanumeric "dateTimeOriginal" = true /\
  Render.label "dateTimeOriginal" = "date Time Original" /\
  squeeze (Render.label "dateTimeOriginal") = "dateTimeOriginal" /\
  blanks (Render.label "dateTimeOriginal") = 2%nat.
Proof.
  split; [reflexivity|].
  pose proof (label_spaces_the_capitals "dateTimeOriginal" eq_refl)
    as (Hl & Hq & _ & Hb & _).
  split; [exact Hl|]. split; [exact Hq|exact Hb].
Defined.
